(** * DumbWish: the wishlist server (server.js) and its image pipeline

    A shallow embedding of the route handlers of [server.js]: the data
    directory is a finite map from paths to files, an [async] handler body is
    a state-and-exception computation over that map, and the two things the
    server cannot decide on its own (what the clock reads, what the [sharp]
    image library answers) are explicit inputs. A handler runs from its
    first line to its response without another handler in between; the
    [auth] and [multer] middlewares have already let the request through;
    the static routes are left out.

    Layout: JavaScript numbers and [processImage]'s size computation first,
    then values, items and files, then the handlers, then the theorems. *)

From Stdlib Require Import ZArith QArith Qround Qabs Qpower Lia Lqa.
From Stdlib Require Import Uint63 Floats.PrimFloat Floats.SpecFloat Floats.FloatOps.
From Stdlib Require Import Init.Byte Sorting.Sorted.
From stdpp Require Import base option list strings gmap pretty.

(** ** JavaScript numbers

    A JavaScript Number is an IEEE 754 binary64 value. The numbers that
    [processImage] computes with are positive and far inside the normal range
    (no overflow, no subnormals), so a Number is modelled by the rational it
    denotes, and an arithmetic operation by the exact operation followed by
    rounding to 53 significant bits, ties to the even mantissa. *)
Module JsNumber.

Local Open Scope Q_scope.

(** Nearest integer, ties to even. *)
Definition round_half_even (q : Q) : Z :=
  let f := Qfloor q in
  match Qcompare (q - inject_Z f) (1 # 2) with
  | Lt => f
  | Gt => (f + 1)%Z
  | Eq => if Z.even f then f else (f + 1)%Z
  end.

(** [ilog2 q] is the exponent of the binade of [q > 0]:
    [2 ^ ilog2 q <= q < 2 ^ (ilog2 q + 1)]. *)
Definition ilog2 (q : Q) : Z :=
  let k := (Z.log2 (Qnum q) - Z.log2 (Zpos (Qden q)))%Z in
  if Qle_bool (2 ^ k) q then k else (k - 1)%Z.

(** Round to the nearest binary64 value (53-bit mantissa). *)
Definition round53 (q : Q) : Q :=
  match Qnum q with
  | Z0 => 0
  | _ =>
      let e := (ilog2 (Qabs q) - 52)%Z in
      inject_Z (round_half_even (q / 2 ^ e)) * 2 ^ e
  end.

(** [a / b] and [a * b] on Numbers. *)
Definition fdiv (a b : Q) : Q := round53 (a / b).
Definition fmul (a b : Q) : Q := round53 (a * b).

(** [Math.min(a, b)]. *)
Definition Math_min (a b : Q) : Q := if Qle_bool a b then a else b.

(** [Math.round(x)]: the nearest integer, ties towards +infinity. *)
Definition Math_round (x : Q) : Z := Qfloor (x + (1 # 2)).

(** Lines 79-87 of [processImage]: the box handed to [sharp.resize].
<<
    let width = metadata.width;
    let height = metadata.height;
    if (width > maxDimension || height > maxDimension) {
        const ratio = Math.min(maxDimension / width, maxDimension / height);
        width = Math.round(width * ratio);
        height = Math.round(height * ratio);
    }
>> *)
Definition resizeDims (width height maxDimension : Z) : Z * Z :=
  if ((maxDimension <? width) || (maxDimension <? height))%Z then
    let ratio :=
      Math_min (fdiv (inject_Z maxDimension) (inject_Z width))
               (fdiv (inject_Z maxDimension) (inject_Z height)) in
    (Math_round (fmul (inject_Z width) ratio),
     Math_round (fmul (inject_Z height) ratio))
  else (width, height).

(** The finite binary64 values, exponent range aside: 53-bit mantissas. *)
Definition representable (f : Q) : Prop :=
  ∃ m e : Z, (0 <= m < 2 ^ 53)%Z ∧ f == inject_Z m * 2 ^ e.

(** The unit roundoff of binary64: [2 ^ -53]. *)
Definition u : Q := 1 # 9007199254740992.

(** The rounding above against Rocq's own binary64: the primitive floats and
    the [SpecFloat] specification of IEEE 754. *)
Definition SF2Q (x : spec_float) : Q :=
  match x with
  | S754_finite s m e => (if s then -1 else 1) * inject_Z (Zpos m) * 2 ^ e
  | _ => 0
  end.

Definition float_of_Z (z : Z) : float := PrimFloat.of_uint63 (Uint63.of_Z z).

(** The same lines of [processImage] on the primitive floats. *)
Definition resizeDims_float (width height maxDimension : Z) : Z * Z :=
  let w := float_of_Z width in
  let h := float_of_Z height in
  let m := float_of_Z maxDimension in
  if (PrimFloat.ltb m w || PrimFloat.ltb m h)%bool then
    let a := PrimFloat.div m w in
    let b := PrimFloat.div m h in
    let ratio := if PrimFloat.leb a b then a else b in
    (Math_round (SF2Q (Prim2SF (PrimFloat.mul w ratio))),
     Math_round (SF2Q (Prim2SF (PrimFloat.mul h ratio))))
  else (width, height).

(** Sides to try [resizeDims] on. *)
Definition sample_widths : list Z :=
  List.map (fun i => 1025 + 7 * Z.of_nat i)%Z (List.seq 0 600)
  ++ [1024; 4032; 6000; 8192; 10000; 16383; 65535; 100352; 268402689]%Z.
Definition sample_heights : list Z :=
  [1; 2; 3; 7; 49; 300; 511; 768; 1023; 1024; 1025; 1500; 2048; 3024; 5000; 65535]%Z.

Definition agree_on_samples : bool :=
  List.forallb
    (fun w =>
       List.forallb
         (fun h =>
            let a := resizeDims w h 1024 in
            let b := resizeDims_float w h 1024 in
            (Z.eqb (fst a) (fst b) && Z.eqb (snd a) (snd b))%bool)
         sample_heights)
    sample_widths.

End JsNumber.


Local Open Scope Z_scope.

(** ** Values, items and files *)

(** A value of a request-body field or of an item field: the fields of an
    item are texts and numbers (and [null], or nothing). [VNum q] is the
    finite Number of value [q]. An absent property reads as [VUndefined],
    and [JSON.stringify] drops a property whose value is [undefined], so a
    field that holds [VUndefined] is a field that is absent from the
    persisted object. The other values are written and parsed back as
    themselves. *)
Inductive JsVal :=
| VUndefined
| VNull
| VBool (b : bool)
| VNum (q : Q)
| VStr (s : string).

(** Truthiness, as [!v] and [v || w] test it. *)
Definition truthy (v : JsVal) : bool :=
  match v with
  | VUndefined | VNull => false
  | VBool b => b
  | VNum q => negb (Qeq_bool q 0)
  | VStr s => negb (String.eqb s "")
  end.

(** [a || b]. *)
Definition js_or (a b : JsVal) : JsVal := if truthy a then a else b.

(** What [parseInt(req.params.id)] returns: [NaN] when the parameter does not
    start with an integer. *)
Inductive JsNum :=
| NaN
| Int (z : Z).

(** [a === b] on Numbers: [NaN] equals nothing. *)
Definition strict_eq (a b : JsNum) : bool :=
  match a, b with
  | Int x, Int y => x =? y
  | _, _ => false
  end.

(** The template literal [`${id}`]: decimal digits (below 1e21, where
    JavaScript switches to exponent notation). *)
Definition numToString (n : JsNum) : string :=
  match n with
  | NaN => "NaN"
  | Int z => pretty z
  end.

(** [new Date().toISOString()] taken when the clock reads [ms]. *)
Inductive IsoDate := ISO (ms : Z).

(** An element of the persisted array. [item_dateUpdated] is [None] while the
    object has no [dateUpdated] property. *)
Record Item := {
  item_id : Z;
  item_title : JsVal;
  item_url : JsVal;
  item_price : JsVal;
  item_note : JsVal;
  item_image : JsVal;
  item_dateAdded : IsoDate;
  item_dateUpdated : option IsoDate
}.

Definition Buffer := list byte.

(** The files this server leaves in the data directory. *)
Inductive File :=
| JsonDoc (items : list Item)
    (* the text [JSON.stringify(items, null, 2)], or ['[]'] *)
| JpegFile (src : Buffer) (width height : Z)
    (* what [sharp(src).resize(width, height, ..).jpeg(..)] encodes *)
| Partial (bytes : list byte).
    (* what an interrupted write left behind *)

(** The data directory: path to file. *)
Abbreviation FS := (gmap string File).

Definition path_join (dir name : string) : string := dir +:+ "/" +:+ name.

Definition dataDir : string := "data".
Definition dataFile : string := path_join dataDir "wishlist.json".

(** [config.maxImageSize] *)
Definition maxImageSize : Z := 1024.

(** ** Errors and responses *)

(** A thrown [Error]: the properties the handlers look at. *)
Record JsError := {
  err_status : option Z;
  err_message : string;
  err_code : option string
}.

Definition Error (message : string) : JsError :=
  {| err_status := None; err_message := message; err_code := None |}.

Definition ENOENT (syscall path : string) : JsError :=
  {| err_status := None;
     err_message := "ENOENT: no such file or directory, " +:+ syscall +:+ " '" +:+ path +:+ "'";
     err_code := Some "ENOENT" |}.

Definition SyntaxError : JsError := Error "Unexpected token in JSON".
Definition TypeError : JsError := Error "Cannot read properties of undefined".

Inductive Body :=
| BItems (items : list Item) (currencySymbol currencyCode : string)
| BItem (item : Item)
| BImageUrl (imageUrl : string)
| BSuccess
| BError (error : string).

Record Response := { status : Z; body : Body }.

(** [res.json(b)] and [res.status(s).json({ error })]. *)
Definition json (b : Body) : Response := {| status := 200; body := b |}.
Definition fail (s : Z) (error : string) : Response := {| status := s; body := BError error |}.

(** The error-handler middleware:
    [res.status(err.status || 500).json({ error: err.message || 'Internal server error' })]. *)
Definition errorHandler (err : JsError) : Response :=
  fail (match err_status err with
        | Some s => if s =? 0 then 500 else s
        | None => 500
        end)
       (if String.eqb (err_message err) "" then "Internal server error" else err_message err).

(** ** Async function bodies

    An [async] body runs against the data directory and either returns or
    throws; the directory it leaves is kept in both cases. *)
Inductive Outcome (A : Type) :=
| Return (a : A)
| Throw (err : JsError).
Arguments Return {A} a.
Arguments Throw {A} err.

Definition Async (A : Type) : Type := FS → Outcome A * FS.

Definition ret {A} (a : A) : Async A := λ fs, (Return a, fs).
Definition throw {A} (err : JsError) : Async A := λ fs, (Throw err, fs).
Definition bind {A B} (m : Async A) (k : A → Async B) : Async B :=
  λ fs, match m fs with
        | (Return a, fs') => k a fs'
        | (Throw err, fs') => (Throw err, fs')
        end.

(** [try { m } catch (err) { h err }] *)
Definition try_catch {A} (m : Async A) (h : JsError → Async A) : Async A :=
  λ fs, match m fs with
        | (Return a, fs') => (Return a, fs')
        | (Throw err, fs') => h err fs'
        end.

(** A route handler: its body, and the response its [catch] clause sends. *)
Definition handle (m : Async Response) (h : JsError → Response) : FS → Response * FS :=
  λ fs, match m fs with
        | (Return r, fs') => (r, fs')
        | (Throw err, fs') => (h err, fs')
        end.

Declare Scope async_scope.
Delimit Scope async_scope with async.
Notation "'await' x ':=' m 'in' k" := (bind m (λ x, k))
  (at level 10, x name, m at level 100, k at level 200) : async_scope.
Notation "'exec' m 'in' k" := (bind m (λ _, k))
  (at level 10, m at level 100, k at level 200) : async_scope.
Local Open Scope async_scope.

(** *** The [fs] module *)

Definition readFile (path : string) : Async File :=
  λ fs, match fs !! path with
        | Some f => (Return f, fs)
        | None => (Throw (ENOENT "open" path), fs)
        end.

Definition writeFile (path : string) (f : File) : Async unit :=
  λ fs, (Return tt, <[path := f]> fs).

Definition unlink (path : string) : Async unit :=
  λ fs, match fs !! path with
        | Some _ => (Return tt, delete path fs)
        | None => (Throw (ENOENT "unlink" path), fs)
        end.

(** [JSON.parse] of a file's text: only the document parses. *)
Definition JSON_parse (f : File) : Async (list Item) :=
  match f with
  | JsonDoc items => ret items
  | _ => throw SyntaxError
  end.

(** [ensureDataDir]: the document is created as ['[]'] when it is missing. *)
Definition ensureDataDir (fs : FS) : FS :=
  match fs !! dataFile with
  | Some _ => fs
  | None => <[dataFile := JsonDoc []]> fs
  end.

(** ** The [sharp] library

    [sharp] is not part of the repository: what it answers for a buffer is an
    input of the model. [sharp_metadata] is [sharp(buffer).metadata()]: the
    decoded width and height, or the error it rejects with. [sharp_toFile] is
    the outcome of the pipeline that ends in [.toFile(path)]. The file is
    written in place at [path]: when the pipeline rejects, [left] tells what
    it left there ([None]: the path was not touched; [Some bytes]: the path
    now holds the bytes written before the failure). *)
Inductive ToFile :=
| Written
| WriteFailed (err : JsError) (left : option (list byte)).

Record Sharp := {
  sharp_metadata : Buffer → Outcome (Z * Z);
  sharp_toFile : Buffer → Z → Z → string → ToFile
}.

(** ** Requests *)

(** [req.body] after [express.json()] or [multer]. *)
Record ReqBody := {
  b_title : JsVal;
  b_url : JsVal;
  b_price : JsVal;
  b_note : JsVal;
  b_image : JsVal
}.

(** A request as a handler sees it, past [auth] and [upload.single('image')]:
    [req_id] is [parseInt(req.params.id)] and [req_file] is [req.file.buffer]
    when [req.file] is set. *)
Record Request := {
  req_id : JsNum;
  req_body : ReqBody;
  req_file : option Buffer
}.

(** What the clock reads during a request: [Date.now()], and the later
    [new Date()]. *)
Record Clock := {
  Date_now : Z;
  new_Date : Z
}.

(** [data.findIndex(p)]; [None] is [-1]. *)
Fixpoint findIndex {A} (p : A → bool) (data : list A) : option nat :=
  match data with
  | [] => None
  | x :: rest => if p x then Some 0%nat else S <$> findIndex p rest
  end.

(** The requests of the API, with what the clock reads while they run. *)
Inductive Op :=
| List
| Upload (req : Request)
| Create (req : Request) (clock : Clock)
| Update (req : Request) (clock : Clock)
| Delete (req : Request).

(** ** The handlers *)
Section Server.

Variable sharp : Sharp.
(** [config.currencySymbol] and [config.currencyCode], fixed at start-up. *)
Variables currencySymbol currencyCode : string.

Definition imagePath (id : JsNum) : string :=
  path_join dataDir (numToString id +:+ ".jpeg").

Definition metadata (buffer : Buffer) : Async (Z * Z) :=
  λ fs, (sharp_metadata sharp buffer, fs).

Definition toFile (buffer : Buffer) (width height : Z) (path : string) : Async unit :=
  λ fs, match sharp_toFile sharp buffer width height path with
        | Written => (Return tt, <[path := JpegFile buffer width height]> fs)
        | WriteFailed err None => (Throw err, fs)
        | WriteFailed err (Some bytes) => (Throw err, <[path := Partial bytes]> fs)
        end.

(** [processImage(buffer, id)], lines 72-101. *)
Definition processImage (buffer : Buffer) (id : JsNum) : Async string :=
  await md := metadata buffer in
  let '(width, height) := JsNumber.resizeDims (fst md) (snd md) maxImageSize in
  exec toFile buffer width height (imagePath id) in
  ret ("/api/images/" +:+ numToString id +:+ ".jpeg").

(** [deleteImage(id)], lines 104-113: every error of [unlink] is swallowed
    (all but [ENOENT] are logged). *)
Definition deleteImage (id : JsNum) : Async unit :=
  try_catch (unlink (imagePath id)) (λ _, ret tt).

Definition readItems : Async (list Item) :=
  await data := readFile dataFile in JSON_parse data.

Definition writeItems (data : list Item) : Async unit :=
  writeFile dataFile (JsonDoc data).

(** [GET /api/wishlist], lines 150-163. *)
Definition getWishlist : FS → Response * FS :=
  handle
    (await items := readItems in
     ret (json (BItems items currencySymbol currencyCode)))
    errorHandler.

(** [POST /api/wishlist/image/:id], lines 166-179. *)
Definition postImage (req : Request) : FS → Response * FS :=
  handle
    (match req_file req with
     | None => ret (fail 400 "No image file provided")
     | Some buffer =>
         let id := req_id req in
         await imageUrl := processImage buffer id in
         ret (json (BImageUrl imageUrl))
     end)
    (λ _, fail 500 "Error processing image").

(** [POST /api/wishlist], lines 182-215. *)
Definition postWishlist (req : Request) (clock : Clock) : FS → Response * FS :=
  handle
    (let b := req_body req in
     if negb (truthy (b_title b)) then
       throw {| err_status := Some 400; err_message := "Title is required"; err_code := None |}
     else
       await data := readItems in
       let id := Date_now clock in
       let image := js_or (b_image b) VNull in
       await image :=
         match req_file req with
         | Some buffer => await u := processImage buffer (Int id) in ret (VStr u)
         | None => ret image
         end in
       let newItem :=
         {| item_id := id;
            item_title := b_title b;
            item_url := b_url b;
            item_price := b_price b;
            item_note := b_note b;
            item_image := image;
            item_dateAdded := ISO (new_Date clock);
            item_dateUpdated := None |} in
       exec writeItems (data ++ [newItem]) in
       ret (json (BItem newItem)))
    errorHandler.

(** [PUT /api/wishlist/:id], lines 218-257. The spread [...data[itemIndex]]
    carries [id], [dateAdded] and any earlier [dateUpdated] over; the
    properties listed after it replace the old ones. *)
Definition putWishlist (req : Request) (clock : Clock) : FS → Response * FS :=
  handle
    (let b := req_body req in
     if negb (truthy (b_title b)) then
       ret (fail 400 "Title is required")
     else
       await data := readItems in
       match findIndex (λ item, strict_eq (Int (item_id item)) (req_id req)) data with
       | None => ret (fail 404 "Item not found")
       | Some itemIndex =>
           match data !! itemIndex with
           | None => throw TypeError
           | Some current =>
               let image := js_or (b_image b) (item_image current) in
               await image :=
                 match req_file req with
                 | Some buffer =>
                     await u := processImage buffer (Int (item_id current)) in ret (VStr u)
                 | None => ret image
                 end in
               let updatedItem :=
                 {| item_id := item_id current;
                    item_title := b_title b;
                    item_url := b_url b;
                    item_price := b_price b;
                    item_note := b_note b;
                    item_image := image;
                    item_dateAdded := item_dateAdded current;
                    item_dateUpdated := Some (ISO (new_Date clock)) |} in
               exec writeItems (<[itemIndex := updatedItem]> data) in
               ret (json (BItem updatedItem))
           end
       end)
    (λ _, fail 500 "Error updating item").

(** [DELETE /api/wishlist/:id], lines 260-274. *)
Definition deleteWishlist (req : Request) : FS → Response * FS :=
  handle
    (let id := req_id req in
     await data := readItems in
     let newData := List.filter (λ item, negb (strict_eq (Int (item_id item)) id)) data in
     exec writeItems newData in
     exec deleteImage id in
     ret (json BSuccess))
    (λ _, fail 500 "Error deleting item").

(** The server as a transition system: one request at a time, each
    handler running to its response before the next request starts. *)
Definition step (op : Op) : FS → Response * FS :=
  match op with
  | List => getWishlist
  | Upload req => postImage req
  | Create req clock => postWishlist req clock
  | Update req clock => putWishlist req clock
  | Delete req => deleteWishlist req
  end.

Fixpoint run (ops : list Op) (fs : FS) : FS :=
  match ops with
  | [] => fs
  | op :: rest => run rest (step op fs).2
  end.

End Server.

(** The persisted collection, when the document is there and parses. *)
Definition collection (fs : FS) : option (list Item) :=
  match fs !! dataFile with
  | Some (JsonDoc items) => Some items
  | _ => None
  end.

(** The items that [DELETE /api/wishlist/:id] keeps. *)
Definition kept (id : JsNum) (data : list Item) : list Item :=
  List.filter (λ item, negb (strict_eq (Int (item_id item)) id)) data.

(** [sharp] decodes [buffer] and writes the encoded file for [id]. *)
Definition stores (sharp : Sharp) (buffer : Buffer) (id : JsNum) : Prop :=
  ∃ w h,
    sharp_metadata sharp buffer = Return (w, h) ∧
    sharp_toFile sharp buffer
      (JsNumber.resizeDims w h maxImageSize).1
      (JsNumber.resizeDims w h maxImageSize).2 (imagePath id) = Written.

(** The upload that comes with a create or update request, if any, goes
    through. *)
Definition upload_ok (sharp : Sharp) (req : Request) (id : Z) : Prop :=
  match req_file req with
  | None => True
  | Some buffer => stores sharp buffer (Int id)
  end.

(** The reference [processImage] returns for [id]. *)
Definition imageUrl (id : JsNum) : string :=
  "/api/images/" +:+ numToString id +:+ ".jpeg".

(** Every create of the run reads a [Date.now()] later than [bound] and later
    than the creates before it. *)
Fixpoint clock_advances (bound : Z) (ops : list Op) : Prop :=
  match ops with
  | [] => True
  | Create _ clock :: rest => bound < Date_now clock ∧ clock_advances (Date_now clock) rest
  | _ :: rest => clock_advances bound rest
  end.

(** The ids of the persisted items are pairwise distinct and none is later
    than [bound]. *)
Definition distinct_ids (bound : Z) (fs : FS) : Prop :=
  ∃ d, collection fs = Some d ∧
       NoDup (item_id <$> d) ∧
       Forall (λ item, item_id item ≤ bound) d.

(** The last character of a string. *)
Fixpoint last_char (s : string) : option Ascii.ascii :=
  match s with
  | EmptyString => None
  | String c EmptyString => Some c
  | String _ rest => last_char rest
  end.

(** The item a successful create appends. *)
Definition newItem (req : Request) (clock : Clock) : Item :=
  {| item_id := Date_now clock;
     item_title := b_title (req_body req);
     item_url := b_url (req_body req);
     item_price := b_price (req_body req);
     item_note := b_note (req_body req);
     item_image :=
       match req_file req with
       | Some _ => VStr (imageUrl (Int (Date_now clock)))
       | None => js_or (b_image (req_body req)) VNull
       end;
     item_dateAdded := ISO (new_Date clock);
     item_dateUpdated := None |}.

(** The item a successful update puts in the place of [current]. *)
Definition updatedItem (req : Request) (clock : Clock) (current : Item) : Item :=
  {| item_id := item_id current;
     item_title := b_title (req_body req);
     item_url := b_url (req_body req);
     item_price := b_price (req_body req);
     item_note := b_note (req_body req);
     item_image :=
       match req_file req with
       | Some _ => VStr (imageUrl (Int (item_id current)))
       | None => js_or (b_image (req_body req)) (item_image current)
       end;
     item_dateAdded := item_dateAdded current;
     item_dateUpdated := Some (ISO (new_Date clock)) |}.

(** The test [PUT] passes to [findIndex]. *)
Definition matches (id : JsNum) (item : Item) : bool := strict_eq (Int (item_id item)) id.

(** ** Sample requests and environments *)

(** A [sharp] that decodes every buffer as a 3000x1500 image and writes it. *)
Definition sharp_ok : Sharp :=
  {| sharp_metadata := λ _, Return (3000, 1500);
     sharp_toFile := λ _ _ _ _, Written |}.

(** A [sharp] that rejects every buffer at [metadata()]. *)
Definition sharp_undecodable : Sharp :=
  {| sharp_metadata := λ _, Throw (Error "Input buffer contains unsupported image format");
     sharp_toFile := λ _ _ _ _, Written |}.

(** A [sharp] whose write fails after it has opened the target file. *)
Definition sharp_disk_full : Sharp :=
  {| sharp_metadata := λ _, Return (3000, 1500);
     sharp_toFile := λ _ _ _ _, WriteFailed (Error "ENOSPC: no space left on device, write") (Some []) |}.

Definition tick : Clock := {| Date_now := 1700000000000; new_Date := 1700000000000 |}.
Definition tock : Clock := {| Date_now := 1700000000001; new_Date := 1700000000002 |}.

Definition fields (title : JsVal) : ReqBody :=
  {| b_title := title; b_url := VStr "https://example.org/item"; b_price := VNum (25 # 2);
     b_note := VUndefined; b_image := VUndefined |}.

Definition socks : Request :=
  {| req_id := NaN; req_body := fields (VStr "Socks"); req_file := None |}.
Definition scarf : Request :=
  {| req_id := NaN; req_body := fields (VStr "Scarf"); req_file := None |}.
Definition untitled : Request :=
  {| req_id := NaN; req_body := fields (VStr ""); req_file := None |}.
Definition for_tick (title : JsVal) : Request :=
  {| req_id := Int 1700000000000; req_body := fields title; req_file := None |}.
Definition delete_of (id : JsNum) : Request :=
  {| req_id := id; req_body := fields VUndefined; req_file := None |}.
Definition photo : Buffer := [xff; xd8; xff; xe0].
Definition upload_for (id : JsNum) : Request :=
  {| req_id := id; req_body := fields VUndefined; req_file := Some photo |}.

(** The data directory right after start-up, and after one create. *)
Definition fresh : FS := ensureDataDir ∅.
Definition one_item : FS := <[dataFile := JsonDoc [newItem socks tick]]> ∅.

(** ** Configuration, [auth] and [multer] *)

(** The environment variables the server reads. *)
Record Env := {
  DUMBDO_PIN : option string;
  DUMBWISH_CURRENCY : option string;
  DUMBWISH_TITLE : option string
}.

(** [process.env.X || fallback]: unset and empty both give the fallback. *)
Definition env_or (v : option string) (fallback : string) : string :=
  match v with
  | Some s => if String.eqb s "" then fallback else s
  | None => fallback
  end.








Definition config_title (env : Env) : string := env_or (DUMBWISH_TITLE env) "DumbWish".

Definition config_pinProtection (env : Env) : string :=
  match DUMBDO_PIN env with
  | Some s => if String.eqb s "" then "disabled" else "enabled"
  | None => "disabled"
  end.

(** The separator of [authHeader.split(' ')]. *)
Definition SPACE : Ascii.ascii := Ascii.ascii_of_N 32.

(** [s.split(sep)] for a separator of one character. *)
Fixpoint split (sep : Ascii.ascii) (s : string) : list string :=
  match s with
  | EmptyString => [EmptyString]
  | String c rest =>
      if Ascii.eqb c sep then EmptyString :: split sep rest
      else match split sep rest with
           | token :: tokens => String c token :: tokens
           | [] => [String c EmptyString]
           end
  end.

(** [c] occurs in [s]. *)
Fixpoint occurs (c : Ascii.ascii) (s : string) : bool :=
  match s with
  | EmptyString => false
  | String c' rest => Ascii.eqb c' c || occurs c rest
  end.

(** The [auth] middleware, lines 128-147: [None] is [next()], [Some err] is
    [next(err)]. [authorization] is [req.headers.authorization]. *)
Definition auth (env : Env) (authorization : option string) : option JsError :=
  match DUMBDO_PIN env with
  | None => None
  | Some pin =>
      if String.eqb pin "" then None
      else
        match authorization with
        | None =>
            Some {| err_status := Some 401; err_message := "No authorization header";
                    err_code := None |}
        | Some authHeader =>
            if String.eqb authHeader "" then
              Some {| err_status := Some 401; err_message := "No authorization header";
                      err_code := None |}
            else
              let providedPin := split SPACE authHeader !! 1%nat in
              match providedPin with
              | Some provided =>
                  if String.eqb provided pin then None
                  else Some {| err_status := Some 401; err_message := "Invalid PIN";
                               err_code := None |}
              | None =>
                  Some {| err_status := Some 401; err_message := "Invalid PIN";
                          err_code := None |}
              end
        end
  end.

(** The [fileFilter] of the [multer] instance, line 53. *)
Definition fileFilter (mimetype : string) : bool := String.prefix "image/" mimetype.

(** A request as it arrives: the [Authorization] header, the [:id] parameter
    after [parseInt], the parsed body fields, and the file part named
    [image], if any, with its MIME type and bytes (files over the size limit
    of the [multer] instance are left out). *)
Record HttpRequest := {
  http_authorization : option string;
  http_id : JsNum;
  http_body : ReqBody;
  http_file : option (string * Buffer)
}.

(** [upload.single('image')]: [req.file] is set when the file part passes
    [fileFilter]; a part that does not is skipped. *)
Definition upload_single (r : HttpRequest) : Request :=
  {| req_id := http_id r;
     req_body := http_body r;
     req_file :=
       match http_file r with
       | Some (mimetype, buffer) => if fileFilter mimetype then Some buffer else None
       | None => None
       end |}.

(** A route without [upload.single]: [req.file] stays unset. *)
Definition no_upload (r : HttpRequest) : Request :=
  {| req_id := http_id r; req_body := http_body r; req_file := None |}.

(** [auth] in front of a handler: a rejection goes to [errorHandler]. *)
Definition protected (env : Env) (r : HttpRequest)
    (handler : FS → Response * FS) : FS → Response * FS :=
  λ fs, match auth env (http_authorization r) with
        | Some err => (errorHandler err, fs)
        | None => handler fs
        end.


Definition POST_image (env : Env) (sharp : Sharp) (r : HttpRequest) : FS → Response * FS :=
  protected env r (postImage sharp (upload_single r)).

Definition POST_wishlist (env : Env) (sharp : Sharp) (r : HttpRequest) (clock : Clock)
    : FS → Response * FS :=
  protected env r (postWishlist sharp (upload_single r) clock).

Definition PUT_wishlist (env : Env) (sharp : Sharp) (r : HttpRequest) (clock : Clock)
    : FS → Response * FS :=
  protected env r (putWishlist sharp (upload_single r) clock).

Definition DELETE_wishlist (env : Env) (r : HttpRequest) : FS → Response * FS :=
  protected env r (deleteWishlist (no_upload r)).

(** No create of the run reads a [Date.now()] earlier than [bound] or than
    the creates before it. *)
Fixpoint clock_never_back (bound : Z) (ops : list Op) : Prop :=
  match ops with
  | [] => True
  | Create _ clock :: rest => bound ≤ Date_now clock ∧ clock_never_back (Date_now clock) rest
  | _ :: rest => clock_never_back bound rest
  end.

(** The ids of the persisted items never decrease along the collection, and
    none is later than [bound]. *)
Definition ids_in_order (bound : Z) (fs : FS) : Prop :=
  ∃ d, collection fs = Some d ∧
       StronglySorted Z.le (item_id <$> d) ∧
       Forall (λ item, item_id item ≤ bound) d.

(** More sample data. *)
Definition env_pin (pin : string) : Env :=
  {| DUMBDO_PIN := Some pin; DUMBWISH_CURRENCY := None; DUMBWISH_TITLE := None |}.
Definition http_socks (authorization : option string) (file : option (string * Buffer))
    : HttpRequest :=
  {| http_authorization := authorization; http_id := Int 1700000000000;
     http_body := fields (VStr "Socks"); http_file := file |}.

(** * Properties *)

(** ** Rounding and [resizeDims] *)

Section NumberFacts.
Import JsNumber.
Local Open Scope Q_scope.

Lemma pow2_pos (e : Z) : 0 < 2 ^ e.
Proof. apply Qpower_0_lt. reflexivity. Qed.

Lemma pow2_add (a b : Z) : 2 ^ (a + b) == 2 ^ a * 2 ^ b.
Proof. apply Qpower_plus. discriminate. Qed.

Lemma Zlog2_bounds (n : Z) :
  (0 < n)%Z → 2 ^ Z.log2 n <= inject_Z n ∧ inject_Z n < 2 ^ (Z.log2 n + 1).
Proof.
  intros Hn. destruct (Z.log2_spec n Hn) as [Hlo Hhi].
  pose proof (Z.log2_nonneg n) as Hk.
  split.
  - rewrite <- (Zpower_Qpower 2) by done. by rewrite <- Zle_Qle.
  - rewrite <- (Zpower_Qpower 2) by lia. rewrite <- Zlt_Qlt. exact Hhi.
Qed.

Lemma ilog2_spec (q : Q) :
  0 < q → 2 ^ ilog2 q <= q ∧ q < 2 ^ (ilog2 q + 1).
Proof.
  intros Hq. destruct q as [n d]. 
  assert (Hn : (0 < n)%Z) by (unfold Qlt in Hq; simpl in Hq; lia).
  destruct (Zlog2_bounds n Hn) as [Hnl Hnh].
  destruct (Zlog2_bounds (Zpos d) eq_refl) as [Hdl Hdh].
  assert (Hqd : (n # d) * inject_Z (Zpos d) == inject_Z n).
  { unfold Qeq, Qmult, inject_Z. simpl. lia. }
  assert (Hd : 0 < inject_Z (Zpos d)) by reflexivity.
  unfold ilog2. cbn [Qnum Qden].
  set (a := Z.log2 n) in *. set (b := Z.log2 (Zpos d)) in *.
  pose proof (pow2_pos a). pose proof (pow2_pos b). pose proof (pow2_pos (a - b)).
  pose proof (pow2_pos (a - b - 1)).
  assert (E1 : 2 ^ (a - b + 1) * 2 ^ b == 2 ^ (a + 1)).
  { rewrite <- pow2_add. by replace (a - b + 1 + b)%Z with (a + 1)%Z by lia. }
  assert (E2 : 2 ^ (a - b - 1) * 2 ^ (b + 1) == 2 ^ a).
  { rewrite <- pow2_add. by replace (a - b - 1 + (b + 1))%Z with a by lia. }
  pose proof (pow2_pos (a - b + 1)).
  destruct (Qle_bool (2 ^ (a - b)) (n # d)) eqn:Hb.
  - apply Qle_bool_iff in Hb. split; [done|].
    apply (Qmult_lt_r _ _ (inject_Z (Zpos d))); [done|]. rewrite Hqd.
    nra.
  - assert (Hlt : n # d < 2 ^ (a - b)).
    { apply Qnot_le_lt. intros H'. apply Qle_bool_iff in H'. congruence. }
    replace (a - b - 1 + 1)%Z with (a - b)%Z by lia. split; [|done].
    apply (Qmult_le_r _ _ (inject_Z (Zpos d))); [done|]. rewrite Hqd.
    nra.
Qed.

Lemma round_half_even_bounds (s : Q) :
  inject_Z (round_half_even s) - (1 # 2) <= s ∧ s <= inject_Z (round_half_even s) + (1 # 2).
Proof.
  unfold round_half_even.
  pose proof (Qfloor_le s) as Hlo. pose proof (Qlt_floor s) as Hhi.
  rewrite inject_Z_plus in Hhi. change (inject_Z 1) with 1 in Hhi.
  destruct (Qcompare_spec (s - inject_Z (Qfloor s)) (1 # 2)) as [E|E|E].
  - destruct (Z.even (Qfloor s)); rewrite ?inject_Z_plus; change (inject_Z 1) with 1; lra.
  - lra.
  - rewrite inject_Z_plus. change (inject_Z 1) with 1. lra.
Qed.

Lemma round53_bounds (q : Q) :
  0 < q → (1 - u) * q <= round53 q ∧ round53 q <= (1 + u) * q.
Proof.
  intros Hq. destruct q as [n d].
  assert (Hn : (0 < n)%Z) by (unfold Qlt in Hq; simpl in Hq; lia).
  unfold round53. cbn [Qnum]. destruct n as [|p|p]; [lia| |lia].
  assert (Habs : Qabs (Zpos p # d) = (Zpos p # d)) by reflexivity.
  rewrite Habs. set (q := Zpos p # d) in *.
  destruct (ilog2_spec q Hq) as [Hlo _].
  set (e := (ilog2 q - 52)%Z).
  assert (Hpow : 2 ^ ilog2 q == 2 ^ 52 * 2 ^ e).
  { rewrite <- pow2_add. unfold e. by replace (52 + (ilog2 q - 52))%Z with (ilog2 q) by lia. }
  pose proof (pow2_pos e) as He.
  destruct (round_half_even_bounds (q / 2 ^ e)) as [Hm1 Hm2].
  set (m := inject_Z (round_half_even (q / 2 ^ e))) in *.
  assert (Hs : q / 2 ^ e * 2 ^ e == q) by (field; lra).
  set (s := q / 2 ^ e) in *. set (E := 2 ^ e) in *.
  rewrite Hpow in Hlo. change (2 ^ 52) with (4503599627370496 # 1) in Hlo.
  unfold u. split; nra.
Qed.

(** [round_half_even s] is an integer nearest to [s]. *)
Lemma round_half_even_nearest (s : Q) (k : Z) :
  Qabs (inject_Z (round_half_even s) - s) <= Qabs (inject_Z k - s).
Proof.
  destruct (round_half_even_bounds s) as [H1 H2].
  set (m := round_half_even s) in *.
  destruct (Z.eq_dec k m) as [->|Hne]; [apply Qle_refl|].
  assert (Hk : inject_Z k <= inject_Z m - 1 ∨ inject_Z m + 1 <= inject_Z k).
  { destruct (Z.lt_total k m) as [Hlt|[Heq|Hgt]]; [left|done|right].
    - assert (Hz : (k <= m + -1)%Z) by lia.
      rewrite Zle_Qle, inject_Z_plus in Hz. change (inject_Z (-1)) with (-1) in Hz. lra.
    - assert (Hz : (m + 1 <= k)%Z) by lia.
      rewrite Zle_Qle, inject_Z_plus in Hz. change (inject_Z 1) with 1 in Hz. lra. }
  apply Qabs_case; intros; apply Qabs_case; intros; destruct Hk; lra.
Qed.

(** [round53 q] is a 53-bit value, and no 53-bit value is nearer to [q]:
    it is the rounding of IEEE 754, to nearest, ties to even. *)
Lemma round53_nearest (q f : Q) :
  0 < q → representable f → Qabs (round53 q - q) <= Qabs (f - q).
Proof.
  intros Hq (m' & e' & [Hm0 Hm1] & Hf). destruct q as [n d].
  assert (Hn : (0 < n)%Z) by (unfold Qlt in Hq; simpl in Hq; lia).
  unfold round53. cbn [Qnum]. destruct n as [|p|p]; [lia| |lia].
  assert (Habs : Qabs (Zpos p # d) = (Zpos p # d)) by reflexivity.
  rewrite Habs. set (q := Zpos p # d) in *.
  destruct (ilog2_spec q Hq) as [Hlo _].
  set (e := (ilog2 q - 52)%Z) in *.
  assert (Hpow : 2 ^ ilog2 q == 2 ^ 52 * 2 ^ e).
  { rewrite <- pow2_add. unfold e. by replace (52 + (ilog2 q - 52))%Z with (ilog2 q) by lia. }
  pose proof (pow2_pos e) as He.
  assert (Hs : q / 2 ^ e * 2 ^ e == q) by (field; lra).
  rewrite Hpow in Hlo. change (2 ^ 52) with (inject_Z (2 ^ 52)) in Hlo.
  set (s := q / 2 ^ e) in *.
  assert (Hnear : ∀ k : Z,
    Qabs (inject_Z (round_half_even s) * 2 ^ e - q) <= Qabs (inject_Z k * 2 ^ e - q)).
  { intros k. pose proof (round_half_even_nearest s k) as H.
    assert (E1 : inject_Z (round_half_even s) * 2 ^ e - q
                 == (inject_Z (round_half_even s) - s) * 2 ^ e) by (rewrite <- Hs; ring).
    assert (E2 : inject_Z k * 2 ^ e - q == (inject_Z k - s) * 2 ^ e) by (rewrite <- Hs; ring).
    rewrite E1, E2, !Qabs_Qmult. apply Qmult_le_compat_r; [done|]. apply Qabs_nonneg. }
  destruct (Z_le_gt_dec e e') as [Hge|Hlt].
  - (* [f] is an integer multiple of [2 ^ e] *)
    assert (Ef : f == inject_Z (m' * 2 ^ (e' - e)) * 2 ^ e).
    { rewrite Hf, inject_Z_mult, (Zpower_Qpower 2) by lia.
      change (inject_Z 2) with 2. rewrite <- Qmult_assoc, <- pow2_add.
      by replace (e' - e + e)%Z with e' by lia. }
    rewrite Ef. apply Hnear.
  - (* [f] lies below the binade of [q] *)
    assert (Hf2 : f <= inject_Z (2 ^ 52) * 2 ^ e).
    { rewrite Hf. 
      assert (E' : 2 ^ e == 2 ^ (e - e') * 2 ^ e').
      { rewrite <- pow2_add. by replace (e - e' + e')%Z with e by lia. }
      rewrite E'. rewrite Qmult_assoc. apply Qmult_le_compat_r; [|apply Qlt_le_weak, pow2_pos].
      rewrite <- (Zpower_Qpower 2) by lia. rewrite <- inject_Z_mult, <- Zle_Qle.
      assert (2 ^ 1 <= 2 ^ (e - e'))%Z by (apply Z.pow_le_mono_r; lia).
      change (2 ^ 1)%Z with 2%Z in *. change (2 ^ 53)%Z with (2 * 2 ^ 52)%Z in Hm1. nia. }
    eapply Qle_trans; [apply (Hnear (2 ^ 52)%Z)|].
    apply Qabs_case; intros; apply Qabs_case; intros; lra.
Qed.

Lemma round53_representable (q : Q) : 0 < q → representable (round53 q).
Proof.
  intros Hq. destruct q as [n d].
  assert (Hn : (0 < n)%Z) by (unfold Qlt in Hq; simpl in Hq; lia).
  unfold round53. cbn [Qnum]. destruct n as [|p|p]; [lia| |lia].
  assert (Habs : Qabs (Zpos p # d) = (Zpos p # d)) by reflexivity.
  rewrite Habs. set (q := Zpos p # d) in *.
  destruct (ilog2_spec q Hq) as [Hlo Hhi].
  set (e := (ilog2 q - 52)%Z) in *.
  assert (Hpow : 2 ^ ilog2 q == 2 ^ 52 * 2 ^ e).
  { rewrite <- pow2_add. unfold e. by replace (52 + (ilog2 q - 52))%Z with (ilog2 q) by lia. }
  assert (Hpow' : 2 ^ (ilog2 q + 1) == 2 ^ 53 * 2 ^ e).
  { rewrite <- pow2_add. unfold e. by replace (53 + (ilog2 q - 52))%Z with (ilog2 q + 1)%Z by lia. }
  pose proof (pow2_pos e) as He.
  assert (Hs : q / 2 ^ e * 2 ^ e == q) by (field; lra).
  rewrite Hpow in Hlo. rewrite Hpow' in Hhi.
  change (2 ^ 52) with (inject_Z (2 ^ 52)) in Hlo.
  change (2 ^ 53) with (inject_Z (2 ^ 53)) in Hhi.
  destruct (round_half_even_bounds (q / 2 ^ e)) as [H1 H2].
  set (s := q / 2 ^ e) in *. set (m := round_half_even s) in *.
  assert (Hs1 : inject_Z (2 ^ 52) <= s) by nra.
  assert (Hs2 : s < inject_Z (2 ^ 53)) by nra.
  assert (Hm : (2 ^ 52 <= m <= 2 ^ 53)%Z).
  { split.
    - assert (inject_Z (2 ^ 52 + -1) < inject_Z m); [|rewrite <- Zlt_Qlt in *; lia].
      rewrite inject_Z_plus. change (inject_Z (-1)) with (-1). lra.
    - assert (inject_Z m < inject_Z (2 ^ 53 + 1)); [|rewrite <- Zlt_Qlt in *; lia].
      rewrite inject_Z_plus. change (inject_Z 1) with 1. lra. }
  destruct (Z.eq_dec m (2 ^ 53)%Z) as [E|E].
  - exists (2 ^ 52)%Z, (e + 1)%Z. split; [lia|]. rewrite E, pow2_add.
    change (2 ^ 1) with 2. change (inject_Z (2 ^ 53)) with (inject_Z (2 ^ 52) * 2). ring.
  - exists m, e. split; [lia | reflexivity].
Qed.

(** At a tie [round_half_even] takes the even neighbour. *)
Lemma round_half_even_tie (s : Q) :
  s - inject_Z (Qfloor s) == 1 # 2 → Z.even (round_half_even s) = true.
Proof.
  intros H. unfold round_half_even. rewrite (proj1 (Qeq_alt _ _) H).
  destruct (Z.even (Qfloor s)) eqn:E; [done|].
  rewrite Z.even_add, E. reflexivity.
Qed.
Lemma inject_Z_pos (z : Z) : (0 < z)%Z → 0 < inject_Z z.
Proof. intros H. change 0 with (inject_Z 0). by rewrite <- Zlt_Qlt. Qed.

Lemma fdiv_bounds (a b : Z) :
  (0 < a)%Z → (0 < b)%Z →
  0 < fdiv (inject_Z a) (inject_Z b) ∧
  (1 - u) * inject_Z a <= fdiv (inject_Z a) (inject_Z b) * inject_Z b ∧
  fdiv (inject_Z a) (inject_Z b) * inject_Z b <= (1 + u) * inject_Z a.
Proof.
  intros Ha Hb. apply inject_Z_pos in Ha, Hb. unfold fdiv.
  set (A := inject_Z a) in *. set (B := inject_Z b) in *.
  assert (Hq : 0 < A / B) by (apply Qlt_shift_div_l; lra).
  destruct (round53_bounds (A / B) Hq) as [Hlo Hhi].
  assert (E : A / B * B == A) by (field; lra).
  set (r := round53 (A / B)) in *. set (q := A / B) in *.
  unfold u in *. repeat split; nra.
Qed.

(** [ratio] is [maxDimension / L] up to two roundings, [L] the larger side. *)
Lemma ratio_bounds (w h M : Z) :
  (0 < w)%Z → (0 < h)%Z → (0 < M)%Z →
  let ratio := Math_min (fdiv (inject_Z M) (inject_Z w)) (fdiv (inject_Z M) (inject_Z h)) in
  0 < ratio ∧
  (1 - u) * inject_Z M <= ratio * inject_Z (Z.max w h) ∧
  ratio * inject_Z (Z.max w h) <= (1 + u) * inject_Z M.
Proof.
  intros Hw Hh HM. cbn zeta.
  destruct (fdiv_bounds M w HM Hw) as (Hw0 & Hw1 & Hw2).
  destruct (fdiv_bounds M h HM Hh) as (Hh0 & Hh1 & Hh2).
  set (rw := fdiv (inject_Z M) (inject_Z w)) in *.
  set (rh := fdiv (inject_Z M) (inject_Z h)) in *.
  assert (HW := inject_Z_pos w Hw). assert (HH := inject_Z_pos h Hh).
  assert (Hmin : Math_min rw rh <= rw ∧ Math_min rw rh <= rh ∧
                 (Math_min rw rh = rw ∨ Math_min rw rh = rh)).
  { unfold Math_min. destruct (Qle_bool rw rh) eqn:E.
    - apply Qle_bool_iff in E. repeat split; [lra | done | by left].
    - assert (rh < rw).
      { apply Qnot_le_lt. intros H'. apply Qle_bool_iff in H'. congruence. }
      repeat split; [lra | lra | by right]. }
  destruct Hmin as (Hle1 & Hle2 & Hcase).
  set (r := Math_min rw rh) in *.
  assert (Hr : 0 < r) by (destruct Hcase as [-> | ->]; done).
  split; [done|].
  destruct (Z.max_spec w h) as [[Hlt ->]|[Hge ->]].
  - (* h is the larger side *)
    assert (HWH : inject_Z w <= inject_Z h) by (rewrite <- Zle_Qle; lia).
    split.
    + destruct Hcase as [E|E]; rewrite E; [|done].
      apply Qle_trans with (rw * inject_Z w); [done|]. apply Qmult_le_l; done.
    + apply Qle_trans with (rh * inject_Z h); [|done]. apply Qmult_le_compat_r; lra.
  - assert (HWH : inject_Z h <= inject_Z w) by (rewrite <- Zle_Qle; lia).
    split.
    + destruct Hcase as [E|E]; rewrite E; [done|].
      apply Qle_trans with (rh * inject_Z h); [done|]. apply Qmult_le_l; done.
    + apply Qle_trans with (rw * inject_Z w); [|done]. apply Qmult_le_compat_r; lra.
Qed.

(** [Math.round(x * ratio)] is a nearest integer to [x * M / L]. *)
Lemma scaled_nearest (x M L : Z) (ratio : Q) :
  (0 < x <= L)%Z → (0 < M)%Z → (M * L <= 2 ^ 50)%Z →
  0 < ratio →
  (1 - u) * inject_Z M <= ratio * inject_Z L →
  ratio * inject_Z L <= (1 + u) * inject_Z M →
  (2 * Z.abs (Math_round (fmul (inject_Z x) ratio) * L - x * M) <= L)%Z.
Proof.
  intros [Hx HxL] HM Hbound Hr Hlo Hhi.
  assert (HX := inject_Z_pos x Hx). assert (HMq := inject_Z_pos M HM).
  assert (HL : 0 < inject_Z L) by (apply inject_Z_pos; lia).
  assert (HxLq : inject_Z x <= inject_Z L) by (by rewrite <- Zle_Qle).
  assert (Hb : inject_Z M * inject_Z L <= 1125899906842624).
  { rewrite <- inject_Z_mult. change 1125899906842624 with (inject_Z (2 ^ 50)).
    by rewrite <- Zle_Qle. }
  unfold fmul, Math_round.
  assert (Hq : 0 < inject_Z x * ratio) by nra.
  destruct (round53_bounds _ Hq) as [Hy1 Hy2].
  set (y := round53 (inject_Z x * ratio)) in *.
  pose proof (Qfloor_le (y + (1 # 2))) as Hk1.
  pose proof (Qlt_floor (y + (1 # 2))) as Hk2.
  set (k := Qfloor (y + (1 # 2))) in *.
  rewrite inject_Z_plus in Hk2. change (inject_Z 1) with 1 in Hk2.
  set (X := inject_Z x) in *. set (Mq := inject_Z M) in *. set (Lq := inject_Z L) in *.
  set (K := inject_Z k) in *.
  (* y * L against x * M *)
  assert (HyL1 : (1 - u) * (1 - u) * (X * Mq) <= y * Lq).
  { assert ((1 - u) * (X * (ratio * Lq)) <= y * Lq) by nra.
    assert ((1 - u) * Mq * X <= X * (ratio * Lq)) by nra.
    unfold u in *. nra. }
  assert (HyL2 : y * Lq <= (1 + u) * (1 + u) * (X * Mq)).
  { assert (y * Lq <= (1 + u) * (X * (ratio * Lq))) by nra.
    assert (X * (ratio * Lq) <= (1 + u) * Mq * X) by nra.
    unfold u in *. nra. }
  assert (HXM : X * Mq <= 1125899906842624) by nra.
  assert (HXM0 : 0 < X * Mq) by nra.
  assert (HKL1 : (2 * K - 1) * Lq <= 2 * (y * Lq)) by nra.
  assert (HKL2 : 2 * (y * Lq) < (2 * K + 1) * Lq) by nra.
  assert (G1 : inject_Z ((2 * k + -1) * L) < inject_Z (2 * (x * M) + 1)).
  { repeat (rewrite ?inject_Z_mult, ?inject_Z_plus).
    fold X Mq Lq K. change (inject_Z 2) with 2. change (inject_Z 1) with 1.
    change (inject_Z (-1)) with (-1).
    unfold u in *. nra. }
  assert (G2 : inject_Z (2 * (x * M) + -1) < inject_Z ((2 * k + 1) * L)).
  { repeat (rewrite ?inject_Z_mult, ?inject_Z_plus).
    fold X Mq Lq K. change (inject_Z 2) with 2. change (inject_Z 1) with 1.
    change (inject_Z (-1)) with (-1).
    unfold u in *. nra. }
  rewrite <- Zlt_Qlt in G1, G2. lia.
Qed.

Local Open Scope Z_scope.

Lemma resizeDims_scaled (w h M : Z) :
  0 < w → 0 < h → 0 < M → M * Z.max w h <= 2 ^ 50 → M < w ∨ M < h →
  let L := Z.max w h in
  let w' := (resizeDims w h M).1 in
  let h' := (resizeDims w h M).2 in
  2 * Z.abs (w' * L - w * M) <= L ∧
  2 * Z.abs (h' * L - h * M) <= L ∧
  (h <= w → w' = M) ∧ (w <= h → h' = M) ∧
  Z.max w' h' = M.
Proof.
  intros Hw Hh HM Hb Hbig. cbn zeta. unfold resizeDims.
  assert (E : (M <? w) || (M <? h) = true).
  { destruct Hbig as [H|H]; apply Z.ltb_lt in H; rewrite H; [done | apply orb_true_r]. }
  rewrite E. cbn [fst snd].
  destruct (ratio_bounds w h M Hw Hh HM) as (Hr & Hlo & Hhi).
  set (ratio := Math_min _ _) in *.
  assert (Gw := scaled_nearest w M (Z.max w h) ratio ltac:(lia) HM Hb Hr Hlo Hhi).
  assert (Gh := scaled_nearest h M (Z.max w h) ratio ltac:(lia) HM Hb Hr Hlo Hhi).
  set (w' := Math_round (fmul (inject_Z w) ratio)) in *.
  set (h' := Math_round (fmul (inject_Z h) ratio)) in *.
  clearbody w' h'. split; [done|]. split; [done|].
  destruct (Z.max_spec w h) as [[Hlt E']|[Hge E']]; rewrite E' in Gw, Gh.
  - assert (h' = M) by nia. assert (w' <= M) by nia.
    split; [lia|]. split; [done|]. lia.
  - assert (w' = M) by nia. assert (h' <= M) by nia.
    split; [done|]. split; [intros; nia|]. lia.
Qed.


(** With the configured bound, 1024, the scaled part covers every side below
    [2 ^ 40]. *)
Corollary resizeDims_configured (w h : Z) :
  0 < w < 2 ^ 40 → 0 < h < 2 ^ 40 → maxImageSize < w ∨ maxImageSize < h →
  let L := Z.max w h in
  let w' := (resizeDims w h maxImageSize).1 in
  let h' := (resizeDims w h maxImageSize).2 in
  2 * Z.abs (w' * L - w * maxImageSize) <= L ∧
  2 * Z.abs (h' * L - h * maxImageSize) <= L ∧
  Z.max w' h' = maxImageSize.
Proof.
  intros Hw Hh Hbig. unfold maxImageSize in *.
  assert (Hb : 1024 * Z.max w h <= 2 ^ 50).
  { change (2 ^ 50) with (1024 * 2 ^ 40). lia. }
  destruct (resizeDims_scaled w h 1024) as (G1 & G2 & _ & _ & G3); [lia..|done|].
  cbn zeta. done.
Qed.

End NumberFacts.

(** [round53] at the quotients and products of the two examples of the
    specification and of a tie, against the primitive floats and against
    [SpecFloat]'s division and multiplication. *)
Example round53_is_float_div :
  Qred (JsNumber.SF2Q (Prim2SF (JsNumber.float_of_Z 1024 / JsNumber.float_of_Z 3000)%float))
    = Qred (JsNumber.fdiv 1024 3000) ∧
  Qred (JsNumber.SF2Q (SFdiv 53 1024 (Prim2SF (JsNumber.float_of_Z 1024))
                                     (Prim2SF (JsNumber.float_of_Z 100352))))
    = Qred (JsNumber.fdiv 1024 100352).
Proof. by vm_compute. Qed.

Example round53_is_float_mul :
  Qred (JsNumber.SF2Q (Prim2SF (JsNumber.float_of_Z 1500
          * (JsNumber.float_of_Z 1024 / JsNumber.float_of_Z 3000))%float))
    = Qred (JsNumber.fmul 1500 (JsNumber.fdiv 1024 3000)) ∧
  Qred (JsNumber.SF2Q (SFmul 53 1024 (Prim2SF (JsNumber.float_of_Z 49))
          (SFdiv 53 1024 (Prim2SF (JsNumber.float_of_Z 1024))
                         (Prim2SF (JsNumber.float_of_Z 100352)))))
    = Qred (JsNumber.fmul 49 (JsNumber.fdiv 1024 100352)).
Proof. by vm_compute. Qed.

(** [resizeDims] and its transcription on the primitive floats give the same
    box at each of some ten thousand sample sizes. *)
Example resizeDims_is_float_resizeDims : JsNumber.agree_on_samples = true.
Proof. by vm_compute. Qed.

(** A tie: 49 * 1024 / 100352 is exactly 0.5, the product of the rounded
    factors lies just below it, and [Math.round] gives 0, one of the two
    nearest integers. The box handed to [sharp.resize] then has height 0. *)
Example resizeDims_tie : JsNumber.resizeDims 100352 49 1024 = (1024, 0).
Proof. by vm_compute. Qed.

(** ** Paths *)

Lemma last_char_app (s : string) (c : Ascii.ascii) (t : string) :
  last_char (s +:+ String c t) = last_char (String c t).
Proof.
  induction s as [|c' s IH]; [done|].
  change (String c' s +:+ String c t) with (String c' (s +:+ String c t)).
  cbn [last_char]. rewrite IH.
  destruct s; reflexivity.
Qed.

Lemma string_app_assoc (a b c : string) : (a +:+ b) +:+ c = a +:+ (b +:+ c).
Proof.
  induction a as [|x a IH]; [done|].
  change (String x ((a +:+ b) +:+ c) = String x (a +:+ (b +:+ c))).
  by rewrite IH.
Qed.

Lemma string_length_app (s t : string) :
  String.length (s +:+ t) = (String.length s + String.length t)%nat.
Proof. induction s as [|c s IH]; simpl; [done | by rewrite IH]. Qed.

Lemma string_app_inj_l (s t u : string) : s +:+ u = t +:+ u → s = t.
Proof.
  revert t. induction s as [|c s IH]; intros [|c' t] E.
  - done.
  - apply (f_equal String.length) in E.
    rewrite !string_length_app in E. simpl in E. lia.
  - apply (f_equal String.length) in E.
    rewrite !string_length_app in E. simpl in E. lia.
  - simpl in E. injection E as -> E. f_equal. by apply IH.
Qed.

(** An image never lives at the document's path. *)
Lemma imagePath_ne_dataFile (id : JsNum) : imagePath id ≠ dataFile.
Proof.
  unfold imagePath, dataFile, path_join, dataDir. intros E.
  apply (f_equal last_char) in E.
  rewrite <- !string_app_assoc in E.
  rewrite last_char_app in E. vm_compute in E. discriminate E.
Qed.

(** Distinct numeric ids name distinct image files. *)
Lemma imagePath_inj (a b : Z) : imagePath (Int a) = imagePath (Int b) → a = b.
Proof.
  unfold imagePath, path_join, dataDir, numToString. intros E.
  do 2 apply (inj (String.app _)) in E.
  apply string_app_inj_l in E. by apply (inj pretty).
Qed.

(** ** The document inside the data directory *)

Lemma collection_Some (fs : FS) (d : list Item) :
  collection fs = Some d ↔ fs !! dataFile = Some (JsonDoc d).
Proof.
  unfold collection. split.
  - destruct (fs !! dataFile) as [[]|]; intros; simplify_eq; done.
  - by intros ->.
Qed.

Lemma readItems_Some (fs : FS) (d : list Item) :
  collection fs = Some d → readItems fs = (Return d, fs).
Proof.
  intros H%collection_Some. unfold readItems, bind, readFile. by rewrite H.
Qed.

Lemma readItems_None (fs : FS) :
  collection fs = None → ∃ err, readItems fs = (Throw err, fs).
Proof.
  unfold collection, readItems, bind, readFile.
  destruct (fs !! dataFile) as [[]|]; intros; simplify_eq; eauto.
Qed.

Lemma collection_write (fs : FS) (d : list Item) :
  collection (<[dataFile := JsonDoc d]> fs) = Some d.
Proof. apply collection_Some, lookup_insert_eq. Qed.

Lemma collection_insert_image (fs : FS) (id : JsNum) (f : File) :
  collection (<[imagePath id := f]> fs) = collection fs.
Proof.
  unfold collection. by rewrite lookup_insert_ne by apply imagePath_ne_dataFile.
Qed.

Lemma collection_delete_image (fs : FS) (id : JsNum) :
  collection (delete (imagePath id) fs) = collection fs.
Proof.
  unfold collection. by rewrite lookup_delete_ne by apply imagePath_ne_dataFile.
Qed.

(** [deleteImage] never throws, and the file is gone afterwards. *)
Lemma deleteImage_eq (id : JsNum) (fs : FS) :
  deleteImage id fs = (Return tt, delete (imagePath id) fs).
Proof.
  unfold deleteImage, try_catch, unlink, ret.
  destruct (fs !! imagePath id) eqn:E; [done|]. by rewrite delete_id.
Qed.

Lemma deleteWishlist_eq (req : Request) (fs : FS) (d : list Item) :
  collection fs = Some d →
  deleteWishlist req fs =
    (json BSuccess,
     delete (imagePath (req_id req)) (<[dataFile := JsonDoc (kept (req_id req) d)]> fs)).
Proof.
  intros H. unfold deleteWishlist, handle, bind.
  rewrite (readItems_Some _ _ H). unfold writeItems, writeFile.
  by rewrite deleteImage_eq.
Qed.

Lemma kept_idemp (id : JsNum) (d : list Item) : kept id (kept id d) = kept id d.
Proof.
  unfold kept. induction d as [|x d IH]; [done|].
  cbn [List.filter]. destruct (negb _) eqn:E; cbn [List.filter]; rewrite ?E, IH; done.
Qed.

Lemma kept_absent (id : JsNum) (d : list Item) :
  Forall (λ item, Int (item_id item) ≠ id) d → kept id d = d.
Proof.
  unfold kept. induction 1 as [|x d Hx _ IH]; [done|].
  cbn [List.filter]. rewrite IH. destruct id as [|z]; simpl; [done|].
  destruct (Z.eqb_spec (item_id x) z); [congruence | done].
Qed.

Lemma postWishlist_untitled (sharp : Sharp) (req : Request) (clock : Clock) (fs : FS) :
  truthy (b_title (req_body req)) = false →
  postWishlist sharp req clock fs = (fail 400 "Title is required", fs).
Proof.
  intros Ht. unfold postWishlist, handle. rewrite Ht. reflexivity.
Qed.

(** C3. [POST /api/wishlist] with a falsy [title] (in particular the empty
    string [VStr ""] and an absent field [VUndefined]) answers 400
    "Title is required" and leaves every file of the data directory as it
    was: the check precedes the read of the document. *)
Theorem create_without_title (sharp : Sharp) (req : Request) (clock : Clock) (fs : FS) :
  truthy (b_title (req_body req)) = false →
  postWishlist sharp req clock fs = (fail 400 "Title is required", fs).
Proof. apply postWishlist_untitled. Qed.

(** C7. [DELETE /api/wishlist/:id] on a readable document answers
    [{ success: true }], and so does the same request repeated at once; the
    repeated request changes nothing in the data directory. When no item
    has the id (also when the parameter is not a number), the request is
    not an error and the persisted collection stays as it was: all that can
    go is a file [<id>.jpeg], which [deleteImage] unlinks in any case. *)
Theorem delete_idempotent (req : Request) (fs : FS) (d : list Item) :
  collection fs = Some d →
  let first := deleteWishlist req fs in
  let second := deleteWishlist req first.2 in
  first.1 = json BSuccess ∧
  second.1 = json BSuccess ∧
  second.2 = first.2 ∧
  (Forall (λ item, Int (item_id item) ≠ req_id req) d →
   collection first.2 = Some d ∧ first.2 = delete (imagePath (req_id req)) fs).
Proof.
  intros H. cbn zeta. rewrite (deleteWishlist_eq req fs d H). cbn [fst snd].
  set (fs1 := delete _ _).
  assert (H1 : collection fs1 = Some (kept (req_id req) d)).
  { unfold fs1. rewrite collection_delete_image. apply collection_write. }
  rewrite (deleteWishlist_eq req fs1 _ H1). cbn [fst snd].
  repeat split.
  - rewrite kept_idemp. rewrite insert_id by by apply collection_Some.
    apply delete_id. unfold fs1. apply lookup_delete_eq.
  - rewrite H1. by rewrite kept_absent.
  - unfold fs1. rewrite kept_absent by done.
    by rewrite insert_id by by apply collection_Some.
Qed.

(** ** [processImage] *)

Lemma processImage_stores (sharp : Sharp) (buffer : Buffer) (id : JsNum) (fs : FS) (w h : Z) :
  sharp_metadata sharp buffer = Return (w, h) →
  sharp_toFile sharp buffer
    (JsNumber.resizeDims w h maxImageSize).1
    (JsNumber.resizeDims w h maxImageSize).2 (imagePath id) = Written →
  processImage sharp buffer id fs =
    (Return (imageUrl id),
     <[imagePath id := JpegFile buffer (JsNumber.resizeDims w h maxImageSize).1
                                       (JsNumber.resizeDims w h maxImageSize).2]> fs).
Proof.
  intros Hm Hw. unfold processImage, bind, metadata, toFile. rewrite Hm. cbn [fst snd].
  destruct (JsNumber.resizeDims w h maxImageSize) as [w' h']. cbn [fst snd] in *.
  by rewrite Hw.
Qed.

(** The three ways [processImage] can end. *)
Lemma processImage_cases (sharp : Sharp) (buffer : Buffer) (id : JsNum) (fs : FS) :
  (∃ f, processImage sharp buffer id fs = (Return (imageUrl id), <[imagePath id := f]> fs)) ∨
  (∃ err, processImage sharp buffer id fs = (Throw err, fs)) ∨
  (∃ err bytes,
     processImage sharp buffer id fs = (Throw err, <[imagePath id := Partial bytes]> fs)).
Proof.
  unfold processImage, bind, metadata, toFile.
  destruct (sharp_metadata sharp buffer) as [[w h]|err]; [|eauto].
  cbn [fst snd]. destruct (JsNumber.resizeDims w h maxImageSize) as [w' h'].
  destruct (sharp_toFile sharp buffer w' h' (imagePath id)) as [|err [bytes|]]; eauto 6.
Qed.

Lemma processImage_collection (sharp : Sharp) (buffer : Buffer) (id : JsNum) (fs : FS) :
  collection (processImage sharp buffer id fs).2 = collection fs.
Proof.
  destruct (processImage_cases sharp buffer id fs)
    as [[f ->]|[[err ->]|[err [bytes ->]]]]; cbn [snd];
    by rewrite ?collection_insert_image.
Qed.

Lemma processImage_frame (sharp : Sharp) (buffer : Buffer) (id : JsNum) (fs : FS) (p : string) :
  p ≠ imagePath id → (processImage sharp buffer id fs).2 !! p = fs !! p.
Proof.
  intros Hp.
  destruct (processImage_cases sharp buffer id fs)
    as [[f ->]|[[err ->]|[err [bytes ->]]]]; cbn [snd];
    by rewrite ?lookup_insert_ne.
Qed.

(** ** What each handler does to the persisted collection *)

Lemma getWishlist_fs (cs cc : string) (fs : FS) : (getWishlist cs cc fs).2 = fs.
Proof.
  unfold getWishlist, handle, bind, readItems, bind, readFile.
  destruct (fs !! dataFile) as [[]|]; reflexivity.
Qed.

Lemma postImage_collection (sharp : Sharp) (req : Request) (fs : FS) :
  collection (postImage sharp req fs).2 = collection fs.
Proof.
  unfold postImage, handle. destruct (req_file req) as [buffer|]; [|done].
  unfold bind. pose proof (processImage_collection sharp buffer (req_id req) fs) as H.
  destruct (processImage sharp buffer (req_id req) fs) as [[u|err] fs']; exact H.
Qed.

(** [POST /api/wishlist] with a title, on a readable document. *)
Lemma postWishlist_eq (sharp : Sharp) (req : Request) (clock : Clock) (fs : FS) (d : list Item) :
  collection fs = Some d →
  truthy (b_title (req_body req)) = true →
  postWishlist sharp req clock fs =
    match req_file req with
    | None =>
        (json (BItem (newItem req clock)),
         <[dataFile := JsonDoc (d ++ [newItem req clock])]> fs)
    | Some buffer =>
        match processImage sharp buffer (Int (Date_now clock)) fs with
        | (Return _, fs') =>
            (json (BItem (newItem req clock)),
             <[dataFile := JsonDoc (d ++ [newItem req clock])]> fs')
        | (Throw err, fs') => (errorHandler err, fs')
        end
    end.
Proof.
  intros H Ht. unfold postWishlist, handle, bind, ret, writeItems, writeFile.
  rewrite Ht. cbn [negb]. cbv beta. rewrite (readItems_Some _ _ H). unfold newItem.
  destruct (req_file req) as [buffer|]; [|done].
  destruct (processImage_cases sharp buffer (Int (Date_now clock)) fs)
    as [[f ->]|[[err ->]|[err [bytes ->]]]]; done.
Qed.

Lemma postWishlist_cases (sharp : Sharp) (req : Request) (clock : Clock) (fs : FS) (d : list Item) :
  collection fs = Some d →
  let r := postWishlist sharp req clock fs in
  (r.1 = json (BItem (newItem req clock)) ∧ collection r.2 = Some (d ++ [newItem req clock])) ∨
  ((∃ s msg, r.1 = fail s msg) ∧ collection r.2 = Some d).
Proof.
  intros H. cbn zeta.
  destruct (truthy (b_title (req_body req))) eqn:Ht.
  - rewrite (postWishlist_eq _ _ _ _ _ H Ht).
    destruct (req_file req) as [buffer|].
    + pose proof (processImage_collection sharp buffer (Int (Date_now clock)) fs) as Hc.
      destruct (processImage sharp buffer (Int (Date_now clock)) fs) as [[u|err] fs'];
        cbn [fst snd] in *.
      * left. split; [done | apply collection_write].
      * right. split; [unfold errorHandler; eauto | congruence].
    + left. split; [done | apply collection_write].
  - rewrite postWishlist_untitled by done. right. split; [eauto | done].
Qed.

(** ** [findIndex] *)

Lemma findIndex_Some {A} (p : A → bool) (l : list A) (i : nat) :
  findIndex p l = Some i →
  ∃ x, l !! i = Some x ∧ p x = true ∧
       ∀ j y, (j < i)%nat → l !! j = Some y → p y = false.
Proof.
  revert i. induction l as [|a l IH]; intros i H; [done|].
  cbn [findIndex] in H. destruct (p a) eqn:Ea.
  - injection H as <-. exists a. repeat split; [done | lia].
  - destruct (findIndex p l) as [k|]; [|done]. injection H as <-.
    destruct (IH k eq_refl) as (x & Hx & Hp & Hlt).
    exists x. repeat split; [done..|].
    intros [|j] y Hj Hy; simplify_eq/=; [done|]. eapply Hlt; [|done]. lia.
Qed.

Lemma findIndex_None {A} (p : A → bool) (l : list A) :
  findIndex p l = None → Forall (λ x, p x = false) l.
Proof.
  induction l as [|a l IH]; [constructor|].
  cbn [findIndex]. destruct (p a) eqn:Ea; [done|].
  destruct (findIndex p l); [done|]. intros _. constructor; auto.
Qed.

Lemma findIndex_elem {A} (p : A → bool) (l : list A) (x : A) :
  x ∈ l → p x = true → is_Some (findIndex p l).
Proof.
  intros Hx Hp. destruct (findIndex p l) eqn:E; [eauto|].
  apply findIndex_None in E. rewrite Forall_forall in E.
  specialize (E x Hx). congruence.
Qed.

(** [PUT /api/wishlist/:id] with a title, on a readable document that has
    the item. *)
Lemma putWishlist_eq (sharp : Sharp) (req : Request) (clock : Clock) (fs : FS)
    (d : list Item) (i : nat) (current : Item) :
  collection fs = Some d →
  truthy (b_title (req_body req)) = true →
  findIndex (matches (req_id req)) d = Some i →
  d !! i = Some current →
  putWishlist sharp req clock fs =
    match req_file req with
    | None =>
        (json (BItem (updatedItem req clock current)),
         <[dataFile := JsonDoc (<[i := updatedItem req clock current]> d)]> fs)
    | Some buffer =>
        match processImage sharp buffer (Int (item_id current)) fs with
        | (Return _, fs') =>
            (json (BItem (updatedItem req clock current)),
             <[dataFile := JsonDoc (<[i := updatedItem req clock current]> d)]> fs')
        | (Throw _, fs') => (fail 500 "Error updating item", fs')
        end
    end.
Proof.
  intros H Ht Hi Hc. unfold putWishlist, handle, bind, ret, writeItems, writeFile.
  rewrite Ht. cbn [negb]. cbv beta. rewrite (readItems_Some _ _ H).
  fold (matches (req_id req)). rewrite Hi, Hc. unfold updatedItem.
  destruct (req_file req) as [buffer|]; [|done].
  destruct (processImage_cases sharp buffer (Int (item_id current)) fs)
    as [[f ->]|[[err ->]|[err [bytes ->]]]]; done.
Qed.

(** The two refusals of [PUT]: no title, no such item. Neither writes. *)
Lemma putWishlist_untitled (sharp : Sharp) (req : Request) (clock : Clock) (fs : FS) :
  truthy (b_title (req_body req)) = false →
  putWishlist sharp req clock fs = (fail 400 "Title is required", fs).
Proof. intros Ht. unfold putWishlist, handle, ret. by rewrite Ht. Qed.

Lemma putWishlist_not_found (sharp : Sharp) (req : Request) (clock : Clock) (fs : FS)
    (d : list Item) :
  collection fs = Some d →
  truthy (b_title (req_body req)) = true →
  findIndex (matches (req_id req)) d = None →
  putWishlist sharp req clock fs = (fail 404 "Item not found", fs).
Proof.
  intros H Ht Hi. unfold putWishlist, handle, bind, ret. rewrite Ht. cbn [negb]. cbv beta.
  rewrite (readItems_Some _ _ H). fold (matches (req_id req)). by rewrite Hi.
Qed.

(** Whatever [PUT] answers, the ids of the collection stay as they were. *)
Lemma putWishlist_ids (sharp : Sharp) (req : Request) (clock : Clock) (fs : FS) (d : list Item) :
  collection fs = Some d →
  ∃ d', collection (putWishlist sharp req clock fs).2 = Some d' ∧
        item_id <$> d' = item_id <$> d.
Proof.
  intros H. destruct (truthy (b_title (req_body req))) eqn:Ht.
  - destruct (findIndex (matches (req_id req)) d) as [i|] eqn:Hi.
    + destruct (findIndex_Some _ _ _ Hi) as (current & Hc & _).
      rewrite (putWishlist_eq _ _ _ _ _ _ _ H Ht Hi Hc).
      assert (Hids : item_id <$> <[i := updatedItem req clock current]> d = item_id <$> d).
      { rewrite list_fmap_insert. apply list_insert_id.
        by rewrite list_lookup_fmap, Hc. }
      destruct (req_file req) as [buffer|].
      * pose proof (processImage_collection sharp buffer (Int (item_id current)) fs) as Hp.
        destruct (processImage sharp buffer (Int (item_id current)) fs) as [[u|err] fs'];
          cbn [fst snd] in *.
        -- eexists. split; [apply collection_write | done].
        -- exists d. split; [congruence | done].
      * eexists. split; [apply collection_write | done].
    + exists d. split; [|done]. by rewrite (putWishlist_not_found _ _ _ _ _ H Ht Hi).
  - exists d. split; [|done]. by rewrite putWishlist_untitled.
Qed.

(** ** Ids over a run of requests *)

Lemma distinct_ids_mono (b b' : Z) (fs : FS) :
  b ≤ b' → distinct_ids b fs → distinct_ids b' fs.
Proof.
  intros Hb (d & Hd & Hn & Hf). exists d. repeat split; [done..|].
  eapply Forall_impl; [exact Hf|]. simpl. intros; lia.
Qed.

Lemma kept_elem (id : JsNum) (d : list Item) (x : Item) :
  x ∈ kept id d ↔ x ∈ d ∧ Int (item_id x) ≠ id.
Proof.
  unfold kept. rewrite !list_elem_of_In, filter_In, negb_true_iff.
  destruct id as [|z]; simpl.
  - split; intros [? ?]; split; done.
  - destruct (Z.eqb_spec (item_id x) z) as [->|Hne].
    + split; intros [? ?]; done.
    + split; intros [? ?]; split; congruence.
Qed.

Lemma kept_sublist (id : JsNum) (d : list Item) : sublist (kept id d) d.
Proof.
  unfold kept. induction d as [|x d IH]; [done|].
  cbn [List.filter]. destruct (negb _); by constructor.
Qed.

Lemma kept_NoDup (id : JsNum) (d : list Item) :
  NoDup (item_id <$> d) → NoDup (item_id <$> kept id d).
Proof.
  unfold kept. induction d as [|x d IH]; [done|].
  rewrite fmap_cons, NoDup_cons. intros [Hx Hn]. cbn [List.filter].
  destruct (negb _); [|by apply IH].
  rewrite fmap_cons, NoDup_cons. split; [|by apply IH].
  intros (y & Hy & Hin%kept_elem)%list_elem_of_fmap.
  apply Hx. apply list_elem_of_fmap. exists y. by destruct Hin.
Qed.

Lemma deleteWishlist_distinct (req : Request) (bound : Z) (fs : FS) :
  distinct_ids bound fs → distinct_ids bound (deleteWishlist req fs).2.
Proof.
  intros (d & Hd & Hn & Hf). rewrite (deleteWishlist_eq _ _ _ Hd). cbn [snd].
  exists (kept (req_id req) d). split; [|split].
  - rewrite collection_delete_image. apply collection_write.
  - by apply kept_NoDup.
  - rewrite Forall_forall in Hf |- *. intros x [Hx _]%kept_elem. by apply Hf.
Qed.

Lemma postWishlist_distinct (sharp : Sharp) (req : Request) (clock : Clock) (bound : Z) (fs : FS) :
  bound < Date_now clock →
  distinct_ids bound fs →
  distinct_ids (Date_now clock) (postWishlist sharp req clock fs).2.
Proof.
  intros Hb (d & Hd & Hn & Hf).
  destruct (postWishlist_cases sharp req clock fs d Hd) as [[_ Hc]|[_ Hc]].
  - exists (d ++ [newItem req clock]). split; [done|]. split.
    + rewrite fmap_app. apply NoDup_app. split; [done|]. split; [|apply NoDup_singleton].
      intros k (y & -> & Hy)%list_elem_of_fmap Hk%list_elem_of_singleton.
      rewrite Forall_forall in Hf. specialize (Hf y Hy). simpl in Hk. lia.
    + apply Forall_app. split.
      * eapply Forall_impl; [exact Hf|]. simpl. intros; lia.
      * apply Forall_singleton. simpl. lia.
  - apply (distinct_ids_mono bound); [lia|]. by exists d.
Qed.

Lemma putWishlist_distinct (sharp : Sharp) (req : Request) (clock : Clock) (bound : Z) (fs : FS) :
  distinct_ids bound fs → distinct_ids bound (putWishlist sharp req clock fs).2.
Proof.
  intros (d & Hd & Hn & Hf).
  destruct (putWishlist_ids sharp req clock fs d Hd) as (d' & Hd' & Hids).
  exists d'. split; [done|]. split; [by rewrite Hids|].
  rewrite Forall_forall in Hf |- *. intros y Hy.
  assert (Hin : item_id y ∈ item_id <$> d).
  { rewrite <- Hids. by apply list_elem_of_fmap_2. }
  apply list_elem_of_fmap in Hin as (z & Hz & Hzd). rewrite Hz. by apply Hf.
Qed.

Lemma run_distinct (sharp : Sharp) (cs cc : string) (ops : list Op) (bound : Z) (fs : FS) :
  clock_advances bound ops →
  distinct_ids bound fs →
  ∃ bound', distinct_ids bound' (run sharp cs cc ops fs).
Proof.
  revert bound fs. induction ops as [|op ops IH]; intros bound fs Hc Hd; [by exists bound|].
  destruct op as [|req|req clock|req clock|req]; cbn [run step clock_advances] in *.
  - rewrite getWishlist_fs. by apply (IH bound).
  - apply (IH bound); [done|]. destruct Hd as (d & Hd & Hrest). exists d.
    by rewrite postImage_collection.
  - destruct Hc as [Hlt Hc]. apply (IH (Date_now clock)); [done|].
    by apply (postWishlist_distinct _ _ _ bound).
  - apply (IH bound); [done|]. by apply putWishlist_distinct.
  - apply (IH bound); [done|]. by apply deleteWishlist_distinct.
Qed.

(** C1, as the code has it. Take any run of requests (creates, updates,
    deletes, uploads, listings) in which every create reads a [Date.now()]
    later than the ids already stored and later than the creates before it.
    Started on a collection with pairwise distinct ids, the run ends on a
    collection with pairwise distinct ids. *)
Theorem ids_distinct_when_clock_advances
    (sharp : Sharp) (cs cc : string) (ops : list Op) (bound : Z) (fs : FS) (d : list Item) :
  collection fs = Some d →
  NoDup (item_id <$> d) →
  Forall (λ item, item_id item ≤ bound) d →
  clock_advances bound ops →
  ∃ d', collection (run sharp cs cc ops fs) = Some d' ∧ NoDup (item_id <$> d').
Proof.
  intros Hd Hn Hf Hc.
  destruct (run_distinct sharp cs cc ops bound fs Hc) as (b' & d' & Hd' & Hn' & _).
  { by exists d. }
  by exists d'.
Qed.

(** ** Delete *)

Lemma kept_split (id : Z) (d : list Item) (x : Item) :
  NoDup (item_id <$> d) → x ∈ d → item_id x = id →
  ∃ d1 d2, d = d1 ++ x :: d2 ∧ kept (Int id) d = d1 ++ d2.
Proof.
  induction d as [|a d IH]; intros Hn Hx Hid; [by apply elem_of_nil in Hx|].
  rewrite fmap_cons, NoDup_cons in Hn. destruct Hn as [Ha Hn].
  unfold kept. cbn [List.filter]. fold (kept (Int id) d).
  change (strict_eq (Int (item_id a)) (Int id)) with (item_id a =? id).
  destruct (Z.eqb_spec (item_id a) id) as [Ea|Ea]; cbn [negb].
  - assert (x = a) as ->.
    { apply elem_of_cons in Hx as [->|Hx]; [done|]. exfalso. apply Ha.
      apply list_elem_of_fmap. exists x. split; [congruence | done]. }
    exists [], d. split; [done|]. apply kept_absent.
    rewrite Forall_forall. intros y Hy E. apply Ha.
    apply list_elem_of_fmap. exists y. split; [congruence | done].
  - apply elem_of_cons in Hx as [->|Hx]; [done|].
    destruct (IH Hn Hx Hid) as (d1 & d2 & -> & E).
    exists (a :: d1), d2. split; [done|]. by rewrite E.
Qed.

(** C2, as the code has it. On a collection whose ids are pairwise distinct
    and that holds an item with the requested id, [DELETE] answers
    [{ success: true }] and persists the collection without that one item,
    the others in their order; the size goes down by exactly one. *)
Theorem delete_removes_the_item (req : Request) (fs : FS) (d : list Item) (x : Item) :
  collection fs = Some d →
  NoDup (item_id <$> d) →
  x ∈ d →
  req_id req = Int (item_id x) →
  ∃ d1 d2,
    d = d1 ++ x :: d2 ∧
    (deleteWishlist req fs).1 = json BSuccess ∧
    collection (deleteWishlist req fs).2 = Some (d1 ++ d2) ∧
    length d = S (length (d1 ++ d2)).
Proof.
  intros Hd Hn Hx Hid.
  destruct (kept_split (item_id x) d x Hn Hx eq_refl) as (d1 & d2 & -> & Hk).
  exists d1, d2. rewrite (deleteWishlist_eq _ _ _ Hd). cbn [fst snd].
  rewrite collection_delete_image, collection_write, Hid, Hk.
  repeat split. rewrite !length_app. simpl. lia.
Qed.

(** Without the assumption on the ids, [DELETE] keeps exactly the items with
    another id, in their order. *)
Lemma delete_keeps_the_others (req : Request) (fs : FS) (d : list Item) :
  collection fs = Some d →
  collection (deleteWishlist req fs).2 = Some (kept (req_id req) d) ∧
  sublist (kept (req_id req) d) d ∧
  ∀ y, y ∈ kept (req_id req) d ↔ y ∈ d ∧ Int (item_id y) ≠ req_id req.
Proof.
  intros Hd. rewrite (deleteWishlist_eq _ _ _ Hd). cbn [snd].
  rewrite collection_delete_image, collection_write.
  split; [done|]. split; [apply kept_sublist|]. intros y. apply kept_elem.
Qed.

(** ** Update *)

Lemma upload_ok_stores (sharp : Sharp) (req : Request) (id : Z) (buffer : Buffer) (fs : FS) :
  upload_ok sharp req id →
  req_file req = Some buffer →
  ∃ f, processImage sharp buffer (Int id) fs =
         (Return (imageUrl (Int id)), <[imagePath (Int id) := f]> fs).
Proof.
  unfold upload_ok. intros Hok Hf. rewrite Hf in Hok. destruct Hok as (w & h & Hm & Hw).
  eexists. by apply (processImage_stores _ _ _ _ w h).
Qed.

Lemma putWishlist_ok (sharp : Sharp) (req : Request) (clock : Clock) (fs : FS)
    (d : list Item) (x : Item) :
  collection fs = Some d →
  truthy (b_title (req_body req)) = true →
  x ∈ d →
  req_id req = Int (item_id x) →
  upload_ok sharp req (item_id x) →
  ∃ i current,
    d !! i = Some current ∧
    item_id current = item_id x ∧
    (putWishlist sharp req clock fs).1 = json (BItem (updatedItem req clock current)) ∧
    collection (putWishlist sharp req clock fs).2 =
      Some (<[i := updatedItem req clock current]> d).
Proof.
  intros Hd Ht Hx Hid Hok.
  destruct (findIndex_elem (matches (req_id req)) d x Hx) as [i Hi].
  { rewrite Hid. unfold matches. simpl. apply Z.eqb_refl. }
  destruct (findIndex_Some _ _ _ Hi) as (current & Hc & Hm & _).
  assert (Hcur : item_id current = item_id x).
  { rewrite Hid in Hm. unfold matches in Hm. simpl in Hm. by apply Z.eqb_eq. }
  exists i, current. split; [done|]. split; [done|].
  rewrite (putWishlist_eq _ _ _ _ _ _ _ Hd Ht Hi Hc).
  destruct (req_file req) as [buffer|] eqn:Hfile.
  - rewrite <- Hcur in Hok.
    destruct (upload_ok_stores _ _ _ _ fs Hok Hfile) as (f & ->). cbn [fst snd].
    split; [done|]. rewrite <- collection_write at 1. reflexivity.
  - cbn [fst snd]. split; [done | apply collection_write].
Qed.

(** C6. [PUT /api/wishlist/:id] with a title, for an id the collection has
    (and with the upload, if the request carries one, going through)
    answers with the updated item and persists it in the place of the item it
    found: [dateAdded] is the one the item had, [dateUpdated] is the time of
    this update. *)
Theorem update_keeps_dateAdded (sharp : Sharp) (req : Request) (clock : Clock) (fs : FS)
    (d : list Item) (x : Item) :
  collection fs = Some d →
  truthy (b_title (req_body req)) = true →
  x ∈ d →
  req_id req = Int (item_id x) →
  upload_ok sharp req (item_id x) →
  ∃ i current updated,
    d !! i = Some current ∧
    item_id current = item_id x ∧
    (putWishlist sharp req clock fs).1 = json (BItem updated) ∧
    collection (putWishlist sharp req clock fs).2 = Some (<[i := updated]> d) ∧
    item_dateAdded updated = item_dateAdded current ∧
    item_dateUpdated updated = Some (ISO (new_Date clock)).
Proof.
  intros Hd Ht Hx Hid Hok.
  destruct (putWishlist_ok sharp req clock fs d x Hd Ht Hx Hid Hok)
    as (i & current & Hc & Hcur & Hr & Hfs).
  exists i, current, (updatedItem req clock current). by repeat split.
Qed.

(** C8. Under the same conditions the [image] of the updated item is: the
    reference of the uploaded file when the request carries one; else
    [req.body.image] when that is truthy; else the reference the item had.
    So without an upload and without a (truthy) [image] in the body the
    reference is retained. *)
Theorem update_image_field (sharp : Sharp) (req : Request) (clock : Clock) (fs : FS)
    (d : list Item) (x : Item) :
  collection fs = Some d →
  truthy (b_title (req_body req)) = true →
  x ∈ d →
  req_id req = Int (item_id x) →
  upload_ok sharp req (item_id x) →
  ∃ i current updated,
    d !! i = Some current ∧
    item_id current = item_id x ∧
    (putWishlist sharp req clock fs).1 = json (BItem updated) ∧
    collection (putWishlist sharp req clock fs).2 = Some (<[i := updated]> d) ∧
    item_image updated =
      match req_file req with
      | Some _ => VStr (imageUrl (Int (item_id current)))
      | None =>
          if truthy (b_image (req_body req)) then b_image (req_body req)
          else item_image current
      end ∧
    (req_file req = None → truthy (b_image (req_body req)) = false →
     item_image updated = item_image current).
Proof.
  intros Hd Ht Hx Hid Hok.
  destruct (putWishlist_ok sharp req clock fs d x Hd Ht Hx Hid Hok)
    as (i & current & Hc & Hcur & Hr & Hfs).
  exists i, current, (updatedItem req clock current).
  repeat split; try done.
  intros Hf Hi. simpl. unfold js_or. by rewrite Hf, Hi.
Qed.

(** ** Create, then list *)

Lemma getWishlist_unreadable (cs cc : string) (fs : FS) :
  collection fs = None → ∃ err, getWishlist cs cc fs = (errorHandler err, fs).
Proof.
  intros H. destruct (readItems_None fs H) as [err E]. exists err.
  unfold getWishlist, handle, bind. by rewrite E.
Qed.

Lemma getWishlist_eq (cs cc : string) (fs : FS) (d : list Item) :
  collection fs = Some d → getWishlist cs cc fs = (json (BItems d cs cc), fs).
Proof.
  intros H. unfold getWishlist, handle, bind, ret. by rewrite (readItems_Some _ _ H).
Qed.

(** C9. A create with a title, on a readable document (the upload, if any,
    going through), followed at once by a listing: the listing is the old
    collection with the created item at the end, and that item carries the
    [title], [url], [price] and [note] of the request, and [image: null]
    when the request had neither a file nor a (truthy) [image]. *)
Theorem create_then_list (sharp : Sharp) (cs cc : string) (req : Request) (clock : Clock)
    (fs : FS) (d : list Item) :
  collection fs = Some d →
  truthy (b_title (req_body req)) = true →
  upload_ok sharp req (Date_now clock) →
  ∃ created,
    (postWishlist sharp req clock fs).1 = json (BItem created) ∧
    (getWishlist cs cc (postWishlist sharp req clock fs).2).1
      = json (BItems (d ++ [created]) cs cc) ∧
    last (d ++ [created]) = Some created ∧
    item_title created = b_title (req_body req) ∧
    item_url created = b_url (req_body req) ∧
    item_price created = b_price (req_body req) ∧
    item_note created = b_note (req_body req) ∧
    (req_file req = None → truthy (b_image (req_body req)) = false →
     item_image created = VNull).
Proof.
  intros Hd Ht Hok. exists (newItem req clock).
  rewrite (postWishlist_eq _ _ _ _ _ Hd Ht).
  assert (Hlist : ∀ fs',
    (getWishlist cs cc (<[dataFile := JsonDoc (d ++ [newItem req clock])]> fs')).1
    = json (BItems (d ++ [newItem req clock]) cs cc)).
  { intros fs'. by rewrite (getWishlist_eq _ _ _ _ (collection_write _ _)). }
  destruct (req_file req) as [buffer|] eqn:Hfile.
  - destruct (upload_ok_stores _ _ _ _ fs Hok Hfile) as (f & ->). cbn [fst snd].
    rewrite Hlist, last_snoc. by repeat split.
  - cbn [fst snd]. rewrite Hlist, last_snoc. repeat split; try done.
    intros _ Hi. unfold newItem. simpl. rewrite Hfile. unfold js_or. by rewrite Hi.
Qed.

(** ** Upload *)

Lemma postImage_eq (sharp : Sharp) (req : Request) (fs : FS) (buffer : Buffer) :
  req_file req = Some buffer →
  postImage sharp req fs =
    match processImage sharp buffer (req_id req) fs with
    | (Return u, fs') => (json (BImageUrl u), fs')
    | (Throw _, fs') => (fail 500 "Error processing image", fs')
    end.
Proof.
  intros Hf. unfold postImage, handle, bind, ret. rewrite Hf.
  by destruct (processImage sharp buffer (req_id req) fs) as [[u|err] fs'].
Qed.


(** C5, as the code has it. An upload without a file is answered 400
    "No image file provided" and touches nothing. An upload with a file
    either goes through or is answered by the one error 500
    "Error processing image", whether [sharp] rejected the buffer or failed
    to write. Files other than the image of the id are never touched. When
    [metadata()] rejects, or when the write fails without having touched its
    target, the data directory is left as it was. The write itself goes to
    the final path: nothing here stages it. *)
Theorem upload_failure (sharp : Sharp) (req : Request) (fs : FS) :
  (req_file req = None →
   postImage sharp req fs = (fail 400 "No image file provided", fs)) ∧
  (∀ buffer, req_file req = Some buffer →
     (stores sharp buffer (req_id req) ∧
        (postImage sharp req fs).1 = json (BImageUrl (imageUrl (req_id req))) ∨
      ¬ stores sharp buffer (req_id req) ∧
        (postImage sharp req fs).1 = fail 500 "Error processing image") ∧
     (∀ p, p ≠ imagePath (req_id req) → (postImage sharp req fs).2 !! p = fs !! p) ∧
     (∀ err, sharp_metadata sharp buffer = Throw err → (postImage sharp req fs).2 = fs) ∧
     (∀ w h err,
        sharp_metadata sharp buffer = Return (w, h) →
        sharp_toFile sharp buffer
          (JsNumber.resizeDims w h maxImageSize).1
          (JsNumber.resizeDims w h maxImageSize).2 (imagePath (req_id req))
          = WriteFailed err None →
        (postImage sharp req fs).2 = fs)).
Proof.
  split.
  { intros Hf. unfold postImage, handle, ret. by rewrite Hf. }
  intros buffer Hf. rewrite (postImage_eq _ _ _ _ Hf). split; [|split; [|split]].
  - unfold stores, processImage, bind, metadata, toFile, ret.
    destruct (sharp_metadata sharp buffer) as [[w h]|err] eqn:Hm; cbn [fst snd].
    + destruct (JsNumber.resizeDims w h maxImageSize) as [w' h'] eqn:Hr.
      destruct (sharp_toFile sharp buffer w' h' (imagePath (req_id req)))
        as [|err [bytes|]] eqn:Hw; cbn [fst snd].
      * left. split; [|done]. exists w, h. by rewrite Hr.
      * right. split; [|done]. intros (w0 & h0 & ? & Hw0). simplify_eq.
        rewrite Hr in Hw0. cbn [fst snd] in Hw0. congruence.
      * right. split; [|done]. intros (w0 & h0 & ? & Hw0). simplify_eq.
        rewrite Hr in Hw0. cbn [fst snd] in Hw0. congruence.
    + right. split; [|done]. intros (w0 & h0 & ? & _). congruence.
  - intros p Hp.
    pose proof (processImage_frame sharp buffer (req_id req) fs p Hp) as H.
    by destruct (processImage sharp buffer (req_id req) fs) as [[u|e] fs'].
  - intros err Hm. unfold processImage, bind, metadata. by rewrite Hm.
  - intros w h err Hm Hw. unfold processImage, bind, metadata, toFile. rewrite Hm.
    cbn [fst snd]. destruct (JsNumber.resizeDims w h maxImageSize) as [w' h'].
    cbn [fst snd] in Hw. by rewrite Hw.
Qed.

(** ** The statements at sample inputs *)

(** Two creates within one millisecond get the same id. *)
Lemma same_tick_creates_collide :
  collection (run sharp_ok "$" "USD" [Create socks tick; Create scarf tick] fresh)
    = Some [newItem socks tick; newItem scarf tick] ∧
  item_id (newItem socks tick) = item_id (newItem scarf tick) ∧
  ¬ NoDup (item_id <$> [newItem socks tick; newItem scarf tick]).
Proof.
  split; [by vm_compute|]. split; [done|].
  intros H. apply NoDup_cons in H as [H _]. apply H. simpl. left.
Qed.

(** On the collection those two creates leave, one delete removes both. *)
Lemma delete_removes_both_duplicates :
  let fs := run sharp_ok "$" "USD" [Create socks tick; Create scarf tick] fresh in
  collection fs = Some [newItem socks tick; newItem scarf tick] ∧
  (deleteWishlist (delete_of (Int 1700000000000)) fs).1 = json BSuccess ∧
  collection (deleteWishlist (delete_of (Int 1700000000000)) fs).2 = Some [].
Proof. by vm_compute. Qed.

(** A write that fails under way replaces the image that was there. *)
Lemma failed_write_replaces_the_image :
  let fs := (postImage sharp_ok (upload_for (Int 7)) fresh).2 in
  let r := postImage sharp_disk_full (upload_for (Int 7)) fs in
  r.1 = fail 500 "Error processing image" ∧
  fs !! imagePath (Int 7) = Some (JpegFile photo 1024 512) ∧
  r.2 !! imagePath (Int 7) = Some (Partial []).
Proof. by vm_compute. Qed.

Lemma ids_distinct_witness :
  ∃ d', collection
          (run sharp_ok "$" "USD"
             [Create socks tick; Update (for_tick (VStr "Wool socks")) tock;
              Create scarf tock; Delete (delete_of (Int 1700000000000))] fresh) = Some d' ∧
        NoDup (item_id <$> d').
Proof.
  apply (ids_distinct_when_clock_advances _ _ _ _ 0 fresh []).
  - reflexivity.
  - constructor.
  - constructor.
  - simpl. lia.
Defined.

Lemma delete_removes_the_item_witness :
  ∃ d1 d2,
    [newItem socks tick] = d1 ++ newItem socks tick :: d2 ∧
    (deleteWishlist (delete_of (Int 1700000000000)) one_item).1 = json BSuccess ∧
    collection (deleteWishlist (delete_of (Int 1700000000000)) one_item).2 = Some (d1 ++ d2) ∧
    length [newItem socks tick] = S (length (d1 ++ d2)).
Proof.
  apply delete_removes_the_item.
  - reflexivity.
  - apply NoDup_singleton.
  - apply list_elem_of_here.
  - reflexivity.
Defined.

Lemma create_without_title_witness :
  truthy (b_title (req_body untitled)) = false ∧
  postWishlist sharp_ok untitled tick one_item = (fail 400 "Title is required", one_item).
Proof. split; [reflexivity | apply create_without_title; reflexivity]. Defined.

Lemma delete_idempotent_witness :
  let first := deleteWishlist (delete_of (Int 7)) one_item in
  let second := deleteWishlist (delete_of (Int 7)) first.2 in
  first.1 = json BSuccess ∧
  second.1 = json BSuccess ∧
  second.2 = first.2 ∧
  (Forall (λ item, Int (item_id item) ≠ req_id (delete_of (Int 7))) [newItem socks tick] →
   collection first.2 = Some [newItem socks tick] ∧
   first.2 = delete (imagePath (req_id (delete_of (Int 7)))) one_item).
Proof. apply delete_idempotent. reflexivity. Defined.

Lemma update_keeps_dateAdded_witness :
  ∃ i current updated,
    [newItem socks tick] !! i = Some current ∧
    item_id current = item_id (newItem socks tick) ∧
    (putWishlist sharp_ok (for_tick (VStr "Wool socks")) tock one_item).1
      = json (BItem updated) ∧
    collection (putWishlist sharp_ok (for_tick (VStr "Wool socks")) tock one_item).2
      = Some (<[i := updated]> [newItem socks tick]) ∧
    item_dateAdded updated = item_dateAdded current ∧
    item_dateUpdated updated = Some (ISO (new_Date tock)).
Proof.
  apply update_keeps_dateAdded.
  - reflexivity.
  - reflexivity.
  - apply list_elem_of_here.
  - reflexivity.
  - exact I.
Defined.

Lemma update_image_field_witness :
  let req := {| req_id := Int 1700000000000; req_body := fields (VStr "Wool socks");
                req_file := Some photo |} in
  ∃ i current updated,
    [newItem socks tick] !! i = Some current ∧
    item_id current = item_id (newItem socks tick) ∧
    (putWishlist sharp_ok req tock one_item).1 = json (BItem updated) ∧
    collection (putWishlist sharp_ok req tock one_item).2
      = Some (<[i := updated]> [newItem socks tick]) ∧
    item_image updated =
      match req_file req with
      | Some _ => VStr (imageUrl (Int (item_id current)))
      | None =>
          if truthy (b_image (req_body req)) then b_image (req_body req)
          else item_image current
      end ∧
    (req_file req = None → truthy (b_image (req_body req)) = false →
     item_image updated = item_image current).
Proof.
  apply update_image_field.
  - reflexivity.
  - reflexivity.
  - apply list_elem_of_here.
  - reflexivity.
  - exists 3000, 1500. split; reflexivity.
Defined.

Lemma create_then_list_witness :
  ∃ created,
    (postWishlist sharp_ok scarf tock one_item).1 = json (BItem created) ∧
    (getWishlist "$" "USD" (postWishlist sharp_ok scarf tock one_item).2).1
      = json (BItems ([newItem socks tick] ++ [created]) "$" "USD") ∧
    last ([newItem socks tick] ++ [created]) = Some created ∧
    item_title created = b_title (req_body scarf) ∧
    item_url created = b_url (req_body scarf) ∧
    item_price created = b_price (req_body scarf) ∧
    item_note created = b_note (req_body scarf) ∧
    (req_file scarf = None → truthy (b_image (req_body scarf)) = false →
     item_image created = VNull).
Proof.
  apply create_then_list.
  - reflexivity.
  - reflexivity.
  - exact I.
Defined.


Lemma upload_failure_witness :
  ¬ stores sharp_undecodable photo NaN ∧
  (postImage sharp_undecodable (upload_for NaN) one_item).1
    = fail 500 "Error processing image" ∧
  (postImage sharp_undecodable (upload_for NaN) one_item).2 = one_item.
Proof.
  destruct (proj2 (upload_failure sharp_undecodable (upload_for NaN) one_item) photo eq_refl)
    as ([[Hs _]|[Hn Hr]] & _ & Hm & _).
  - destruct Hs as (w & h & Hs & _). discriminate Hs.
  - split; [exact Hn|]. split; [exact Hr|]. eapply Hm. reflexivity.
Defined.


(** * Further properties of the server *)

(** ** Start-up, listing, [deleteImage] *)

(** [ensureDataDir] leaves a data directory that has the document file: an
    existing file there is kept as it is (whatever it holds), a missing one
    becomes the empty collection; no other file is touched; running it again
    changes nothing. *)
Theorem ensureDataDir_creates_once (fs : FS) :
  is_Some (ensureDataDir fs !! dataFile) ∧
  (is_Some (fs !! dataFile) → ensureDataDir fs = fs) ∧
  (fs !! dataFile = None → collection (ensureDataDir fs) = Some []) ∧
  (∀ p, p ≠ dataFile → ensureDataDir fs !! p = fs !! p) ∧
  ensureDataDir (ensureDataDir fs) = ensureDataDir fs.
Proof.
  unfold ensureDataDir. destruct (fs !! dataFile) as [f|] eqn:E.
  - rewrite E. repeat split; eauto. intros; congruence.
  - rewrite lookup_insert_eq. repeat split; eauto.
    + intros [? ?]; congruence.
    + intros _. apply collection_write.
    + intros p Hp. by rewrite lookup_insert_ne.
Qed.

Lemma ensureDataDir_creates_once_witness :
  collection (ensureDataDir (<[imagePath (Int 7) := Partial []]> ∅)) = Some [].
Proof.
  apply (proj1 (proj2 (proj2 (ensureDataDir_creates_once _)))). reflexivity.
Defined.

(** The listing never writes. On a readable document it answers 200 with the
    persisted items in their order; on a missing or unparseable document it
    answers 500. *)
Theorem list_reads_only (cs cc : string) (fs : FS) :
  (getWishlist cs cc fs).2 = fs ∧
  (∀ d, collection fs = Some d → (getWishlist cs cc fs).1 = json (BItems d cs cc)) ∧
  (collection fs = None → status (getWishlist cs cc fs).1 = 500).
Proof.
  split; [apply getWishlist_fs|]. split.
  - intros d Hd. by rewrite (getWishlist_eq _ _ _ _ Hd).
  - unfold collection, getWishlist, handle, bind, readItems, bind, readFile.
    destruct (fs !! dataFile) as [[]|]; intros; simplify_eq; reflexivity.
Qed.

Lemma list_reads_only_witness :
  status (getWishlist "$" "USD" (<[dataFile := Partial []]> ∅)).1 = 500.
Proof.
  apply (proj2 (proj2 (list_reads_only "$" "USD" (<[dataFile := Partial []]> ∅)))).
  reflexivity.
Defined.



(** ** Delete *)



(** [DELETE] on a missing or unparseable document answers 500
    "Error deleting item" and touches nothing: the image of the id stays. *)
Theorem delete_on_unreadable_document (req : Request) (fs : FS) :
  collection fs = None →
  deleteWishlist req fs = (fail 500 "Error deleting item", fs).
Proof.
  intros H. destruct (readItems_None fs H) as [err E].
  unfold deleteWishlist, handle, bind. by rewrite E.
Qed.

Lemma delete_on_unreadable_document_witness :
  deleteWishlist (delete_of (Int 7)) (<[imagePath (Int 7) := Partial []]> ∅)
  = (fail 500 "Error deleting item", <[imagePath (Int 7) := Partial []]> ∅).
Proof. apply delete_on_unreadable_document. reflexivity. Defined.

(** ** Update *)

Lemma findIndex_absent (id : JsNum) (d : list Item) :
  Forall (λ item, Int (item_id item) ≠ id) d → findIndex (matches id) d = None.
Proof.
  induction 1 as [|x d Hx _ IH]; [done|].
  cbn [findIndex]. rewrite IH. unfold matches. destruct id as [|z]; [done|].
  simpl. destruct (Z.eqb_spec (item_id x) z); [congruence | done].
Qed.

(** The refusals of [PUT /api/wishlist/:id], in the order the handler checks:
    a falsy title is answered 400 before the document is read (so also when
    the document is unreadable or the item is missing); then an unreadable
    document is answered 500; then an id no item has is answered 404. None of
    them writes. *)
Theorem update_refusals (sharp : Sharp) (req : Request) (clock : Clock) (fs : FS) :
  (truthy (b_title (req_body req)) = false →
   putWishlist sharp req clock fs = (fail 400 "Title is required", fs)) ∧
  (truthy (b_title (req_body req)) = true → collection fs = None →
   putWishlist sharp req clock fs = (fail 500 "Error updating item", fs)) ∧
  (∀ d, truthy (b_title (req_body req)) = true → collection fs = Some d →
        Forall (λ item, Int (item_id item) ≠ req_id req) d →
        putWishlist sharp req clock fs = (fail 404 "Item not found", fs)).
Proof.
  split; [apply putWishlist_untitled|]. split.
  - intros Ht H. destruct (readItems_None fs H) as [err E].
    unfold putWishlist, handle, bind. rewrite Ht. cbn [negb]. cbv beta. by rewrite E.
  - intros d Ht H Habs. apply (putWishlist_not_found _ _ _ _ d); [done..|].
    by apply findIndex_absent.
Qed.

Lemma update_refusals_witness :
  putWishlist sharp_ok (for_tick (VStr "Wool socks")) tock fresh
  = (fail 404 "Item not found", fresh).
Proof.
  apply (proj2 (proj2 (update_refusals sharp_ok (for_tick (VStr "Wool socks")) tock fresh)) []).
  - reflexivity.
  - reflexivity.
  - constructor.
Defined.

Lemma putWishlist_first (sharp : Sharp) (req : Request) (clock : Clock) (fs : FS)
    (d : list Item) (x : Item) :
  collection fs = Some d →
  truthy (b_title (req_body req)) = true →
  x ∈ d →
  req_id req = Int (item_id x) →
  upload_ok sharp req (item_id x) →
  ∃ i current,
    d !! i = Some current ∧
    item_id current = item_id x ∧
    (∀ j y, (j < i)%nat → d !! j = Some y → item_id y ≠ item_id x) ∧
    (putWishlist sharp req clock fs).1 = json (BItem (updatedItem req clock current)) ∧
    collection (putWishlist sharp req clock fs).2 =
      Some (<[i := updatedItem req clock current]> d).
Proof.
  intros Hd Ht Hx Hid Hok.
  destruct (findIndex_elem (matches (req_id req)) d x Hx) as [i Hi].
  { rewrite Hid. unfold matches. simpl. apply Z.eqb_refl. }
  destruct (findIndex_Some _ _ _ Hi) as (current & Hc & Hm & Hfirst).
  assert (Hcur : item_id current = item_id x).
  { rewrite Hid in Hm. unfold matches in Hm. simpl in Hm. by apply Z.eqb_eq. }
  exists i, current. split; [done|]. split; [done|]. split.
  { intros j y Hj Hy E. specialize (Hfirst j y Hj Hy).
    rewrite Hid in Hfirst. unfold matches in Hfirst. simpl in Hfirst.
    apply Z.eqb_neq in Hfirst. contradiction. }
  rewrite (putWishlist_eq _ _ _ _ _ _ _ Hd Ht Hi Hc).
  destruct (req_file req) as [buffer|] eqn:Hfile.
  - rewrite <- Hcur in Hok.
    destruct (upload_ok_stores _ _ _ _ fs Hok Hfile) as (f & ->). cbn [fst snd].
    split; [done | apply collection_write].
  - cbn [fst snd]. split; [done | apply collection_write].
Qed.

(** An update that goes through changes one place of the collection, the
    first item with the id (also when later items share it): the number of
    items, their ids and every other item stay as they were. *)
Theorem update_changes_first_match_only (sharp : Sharp) (req : Request) (clock : Clock)
    (fs : FS) (d : list Item) (x : Item) :
  collection fs = Some d →
  truthy (b_title (req_body req)) = true →
  x ∈ d →
  req_id req = Int (item_id x) →
  upload_ok sharp req (item_id x) →
  ∃ i d',
    collection (putWishlist sharp req clock fs).2 = Some d' ∧
    (∃ current, d !! i = Some current ∧ item_id current = item_id x) ∧
    (∀ j y, (j < i)%nat → d !! j = Some y → item_id y ≠ item_id x) ∧
    length d' = length d ∧
    item_id <$> d' = item_id <$> d ∧
    (∀ j, j ≠ i → d' !! j = d !! j).
Proof.
  intros Hd Ht Hx Hid Hok.
  destruct (putWishlist_first sharp req clock fs d x Hd Ht Hx Hid Hok)
    as (i & current & Hc & Hcur & Hfirst & _ & Hfs).
  exists i, (<[i := updatedItem req clock current]> d).
  split; [done|]. split; [eauto|]. split; [done|]. split; [apply length_insert|]. split.
  - rewrite list_fmap_insert. apply list_insert_id. by rewrite list_lookup_fmap, Hc.
  - intros j Hj. by apply list_lookup_insert_ne.
Qed.

Lemma update_changes_first_match_only_witness :
  let req := for_tick (VStr "Wool socks") in
  ∃ i d',
    collection (putWishlist sharp_ok req tock one_item).2 = Some d' ∧
    (∃ current, [newItem socks tick] !! i = Some current ∧
                item_id current = item_id (newItem socks tick)) ∧
    (∀ j y, (j < i)%nat → [newItem socks tick] !! j = Some y →
            item_id y ≠ item_id (newItem socks tick)) ∧
    length d' = length [newItem socks tick] ∧
    item_id <$> d' = item_id <$> [newItem socks tick] ∧
    (∀ j, j ≠ i → d' !! j = [newItem socks tick] !! j).
Proof.
  exact (update_changes_first_match_only sharp_ok (for_tick (VStr "Wool socks")) tock one_item
           [newItem socks tick] (newItem socks tick) eq_refl eq_refl
           (list_elem_of_here _ _) eq_refl I).
Defined.



(** ** Uploads inside create and update *)

Lemma processImage_throws (sharp : Sharp) (buffer : Buffer) (id : JsNum) (fs : FS) :
  ¬ stores sharp buffer id →
  ∃ err fs', processImage sharp buffer id fs = (Throw err, fs').
Proof.
  intros Hn. unfold processImage, bind, metadata, toFile.
  destruct (sharp_metadata sharp buffer) as [[w h]|err] eqn:Hm; [|eauto].
  cbn [fst snd]. destruct (JsNumber.resizeDims w h maxImageSize) as [w' h'] eqn:Hr.
  destruct (sharp_toFile sharp buffer w' h' (imagePath id)) as [|err [bytes|]] eqn:Hw; eauto.
  exfalso. apply Hn. exists w, h. by rewrite Hr.
Qed.

(** A create whose upload goes through stores the reference of the file it
    has just written: the item's [image] is [/api/images/<id>.jpeg] for the
    new id (an [image] in the body is overridden), and the data directory
    has [<id>.jpeg] with the encoded upload. *)
Theorem create_with_upload_references_its_file (sharp : Sharp) (req : Request)
    (clock : Clock) (fs : FS) (d : list Item) (buffer : Buffer) :
  collection fs = Some d →
  truthy (b_title (req_body req)) = true →
  req_file req = Some buffer →
  stores sharp buffer (Int (Date_now clock)) →
  ∃ created w h,
    (postWishlist sharp req clock fs).1 = json (BItem created) ∧
    item_id created = Date_now clock ∧
    item_image created = VStr (imageUrl (Int (item_id created))) ∧
    (postWishlist sharp req clock fs).2 !! imagePath (Int (item_id created))
      = Some (JpegFile buffer w h) ∧
    collection (postWishlist sharp req clock fs).2 = Some (d ++ [created]).
Proof.
  intros Hd Ht Hf (w & h & Hm & Hw).
  rewrite (postWishlist_eq _ _ _ _ _ Hd Ht), Hf.
  rewrite (processImage_stores _ _ _ _ w h Hm Hw). cbn [fst snd].
  exists (newItem req clock). do 2 eexists. split; [done|]. split; [done|].
  split; [unfold newItem; simpl; by rewrite Hf|]. split; [|apply collection_write].
  rewrite lookup_insert_ne by (apply not_eq_sym, imagePath_ne_dataFile).
  apply lookup_insert_eq.
Qed.

Lemma create_with_upload_references_its_file_witness :
  ∃ created w h,
    (postWishlist sharp_ok {| req_id := NaN; req_body := fields (VStr "Socks");
                              req_file := Some photo |} tick one_item).1
      = json (BItem created) ∧
    item_id created = Date_now tick ∧
    item_image created = VStr (imageUrl (Int (item_id created))) ∧
    (postWishlist sharp_ok {| req_id := NaN; req_body := fields (VStr "Socks");
                              req_file := Some photo |} tick one_item).2
      !! imagePath (Int (item_id created)) = Some (JpegFile photo w h) ∧
    collection (postWishlist sharp_ok {| req_id := NaN; req_body := fields (VStr "Socks");
                                         req_file := Some photo |} tick one_item).2
      = Some ([newItem socks tick] ++ [created]).
Proof.
  exact (create_with_upload_references_its_file sharp_ok
           {| req_id := NaN; req_body := fields (VStr "Socks"); req_file := Some photo |}
           tick one_item [newItem socks tick] photo eq_refl eq_refl eq_refl
           (ex_intro _ 3000 (ex_intro _ 1500 (conj eq_refl eq_refl)))).
Defined.



(** An update whose upload fails is answered 500 "Error updating item" and
    writes no document: the collection is as before, and no file but the
    image of the item can have changed. *)
Theorem update_with_failed_upload (sharp : Sharp) (req : Request) (clock : Clock)
    (fs : FS) (d : list Item) (x : Item) (buffer : Buffer) :
  collection fs = Some d →
  truthy (b_title (req_body req)) = true →
  x ∈ d →
  req_id req = Int (item_id x) →
  req_file req = Some buffer →
  ¬ stores sharp buffer (Int (item_id x)) →
  (putWishlist sharp req clock fs).1 = fail 500 "Error updating item" ∧
  collection (putWishlist sharp req clock fs).2 = Some d ∧
  (∀ p, p ≠ imagePath (Int (item_id x)) →
        (putWishlist sharp req clock fs).2 !! p = fs !! p).
Proof.
  intros Hd Ht Hx Hid Hf Hn.
  destruct (findIndex_elem (matches (req_id req)) d x Hx) as [i Hi].
  { rewrite Hid. unfold matches. simpl. apply Z.eqb_refl. }
  destruct (findIndex_Some _ _ _ Hi) as (current & Hc & Hm & _).
  assert (Hcur : item_id current = item_id x).
  { rewrite Hid in Hm. unfold matches in Hm. simpl in Hm. by apply Z.eqb_eq. }
  rewrite (putWishlist_eq _ _ _ _ _ _ _ Hd Ht Hi Hc), Hf, Hcur.
  pose proof (processImage_collection sharp buffer (Int (item_id x)) fs) as Hcol.
  pose proof (processImage_frame sharp buffer (Int (item_id x)) fs) as Hfr.
  destruct (processImage_throws sharp buffer (Int (item_id x)) fs Hn) as (err & fs' & E).
  rewrite E in Hcol, Hfr |- *. cbn [fst snd] in *.
  split; [done|]. split; [congruence | done].
Qed.

Lemma update_with_failed_upload_witness :
  let req := {| req_id := Int 1700000000000; req_body := fields (VStr "Wool socks");
                req_file := Some photo |} in
  (putWishlist sharp_undecodable req tock one_item).1 = fail 500 "Error updating item" ∧
  collection (putWishlist sharp_undecodable req tock one_item).2 = Some [newItem socks tick] ∧
  (∀ p, p ≠ imagePath (Int (item_id (newItem socks tick))) →
        (putWishlist sharp_undecodable req tock one_item).2 !! p = one_item !! p).
Proof.
  apply (update_with_failed_upload sharp_undecodable
           {| req_id := Int 1700000000000; req_body := fields (VStr "Wool socks");
              req_file := Some photo |}
           tock one_item [newItem socks tick] (newItem socks tick) photo
           eq_refl eq_refl (list_elem_of_here _ _) eq_refl eq_refl).
  intros (w & h & Hm & Hw). discriminate Hm.
Defined.

(** ** Round trips *)


Lemma postImage_cases (sharp : Sharp) (req : Request) (fs : FS) :
  (postImage sharp req fs).2 = fs ∨
  ∃ f, (postImage sharp req fs).2 = <[imagePath (req_id req) := f]> fs.
Proof.
  unfold postImage, handle. destruct (req_file req) as [buffer|]; [|by left].
  unfold bind.
  destruct (processImage_cases sharp buffer (req_id req) fs)
    as [[f ->]|[[err ->]|[err [bytes ->]]]]; cbn [snd]; eauto.
Qed.





(** Images are keyed by id: an upload or a delete for the id [a] never
    touches the image file of another id [b]. *)
Theorem other_images_are_untouched (sharp : Sharp) (req : Request) (fs : FS) (a b : Z) :
  req_id req = Int a →
  a ≠ b →
  (postImage sharp req fs).2 !! imagePath (Int b) = fs !! imagePath (Int b) ∧
  (deleteWishlist req fs).2 !! imagePath (Int b) = fs !! imagePath (Int b).
Proof.
  intros Hid Hab.
  assert (Hne : imagePath (Int a) ≠ imagePath (Int b)).
  { intros E. by apply imagePath_inj in E. }
  split.
  - destruct (postImage_cases sharp req fs) as [->|[f ->]]; [done|].
    rewrite Hid. by rewrite lookup_insert_ne.
  - destruct (collection fs) as [d|] eqn:Hd.
    + rewrite (deleteWishlist_eq _ _ _ Hd), Hid. cbn [snd].
      rewrite lookup_delete_ne by done.
      apply lookup_insert_ne, not_eq_sym, imagePath_ne_dataFile.
    + destruct (readItems_None fs Hd) as [err E].
      unfold deleteWishlist, handle, bind. by rewrite E.
Qed.

Lemma other_images_are_untouched_witness :
  (postImage sharp_disk_full (upload_for (Int 7)) one_item).2 !! imagePath (Int 8)
    = one_item !! imagePath (Int 8) ∧
  (deleteWishlist (upload_for (Int 7)) one_item).2 !! imagePath (Int 8)
    = one_item !! imagePath (Int 8).
Proof.
  apply (other_images_are_untouched sharp_disk_full (upload_for (Int 7)) one_item 7 8).
  - reflexivity.
  - discriminate.
Defined.

(** ** What every run of requests keeps *)




Lemma sorted_snoc (l : list Z) (t : Z) :
  StronglySorted Z.le l → Forall (λ k, k ≤ t) l → StronglySorted Z.le (l ++ [t]).
Proof.
  induction 1 as [|a l Hs IH Ha]; intros Hb.
  - repeat constructor.
  - apply Forall_cons in Hb as [Hat Hb]. simpl. constructor; [by apply IH|].
    apply Forall_app. split; [done|]. by constructor.
Qed.

Lemma kept_sorted (id : JsNum) (d : list Item) :
  StronglySorted Z.le (item_id <$> d) → StronglySorted Z.le (item_id <$> kept id d).
Proof.
  unfold kept. induction d as [|x d IH]; [done|].
  rewrite fmap_cons. intros [Hs Hx]%StronglySorted_inv. cbn [List.filter].
  destruct (negb _); [|by apply IH].
  rewrite fmap_cons. constructor; [by apply IH|].
  rewrite Forall_forall in Hx |- *.
  intros k (y & -> & Hy%kept_elem)%list_elem_of_fmap.
  apply Hx, list_elem_of_fmap. exists y. by destruct Hy.
Qed.

Lemma step_in_order (sharp : Sharp) (cs cc : string) (op : Op) (bound : Z) (fs : FS) :
  clock_never_back bound [op] →
  ids_in_order bound fs →
  ids_in_order (match op with Create _ clock => Date_now clock | _ => bound end)
               (step sharp cs cc op fs).2.
Proof.
  intros Hc (d & Hd & Hs & Hb).
  destruct op as [|req|req clock|req clock|req]; cbn [step clock_never_back] in *.
  - rewrite getWishlist_fs. by exists d.
  - exists d. by rewrite postImage_collection.
  - destruct Hc as [Hle _].
    destruct (postWishlist_cases sharp req clock fs d Hd) as [[_ E]|[_ E]].
    + exists (d ++ [newItem req clock]). split; [done|]. split.
      * rewrite fmap_app. apply sorted_snoc; [done|].
        rewrite Forall_forall in Hb. rewrite Forall_forall.
        intros k (y & -> & Hy)%list_elem_of_fmap. specialize (Hb y Hy). simpl. lia.
      * apply Forall_app. split.
        -- eapply Forall_impl; [exact Hb|]. simpl. intros; lia.
        -- apply Forall_singleton. simpl. lia.
    + exists d. split; [done|]. split; [done|].
      eapply Forall_impl; [exact Hb|]. simpl. intros; lia.
  - destruct (putWishlist_ids sharp req clock fs d Hd) as (d' & Hd' & Hids).
    exists d'. split; [done|]. split; [by rewrite Hids|].
    rewrite Forall_forall in Hb |- *. intros y Hy.
    assert (Hin : item_id y ∈ item_id <$> d).
    { rewrite <- Hids. by apply list_elem_of_fmap_2. }
    apply list_elem_of_fmap in Hin as (z & Hz & Hzd). rewrite Hz. by apply Hb.
  - rewrite (deleteWishlist_eq _ _ _ Hd). cbn [snd].
    exists (kept (req_id req) d). split; [|split].
    + rewrite collection_delete_image. apply collection_write.
    + by apply kept_sorted.
    + rewrite Forall_forall in Hb |- *. intros x [Hx _]%kept_elem. by apply Hb.
Qed.

(** Creation order is id order as long as the clock does not go back: over
    any run of requests in which no create reads a [Date.now()] earlier than
    an id already stored or than an earlier create, the ids never decrease
    along the persisted collection. *)
Theorem ids_stay_in_creation_order
    (sharp : Sharp) (cs cc : string) (ops : list Op) (bound : Z) (fs : FS) (d : list Item) :
  collection fs = Some d →
  StronglySorted Z.le (item_id <$> d) →
  Forall (λ item, item_id item ≤ bound) d →
  clock_never_back bound ops →
  ∃ d', collection (run sharp cs cc ops fs) = Some d' ∧
        StronglySorted Z.le (item_id <$> d').
Proof.
  intros Hd Hs Hb Hc.
  assert (H : ids_in_order bound fs) by (by exists d).
  clear Hd Hs Hb. revert bound fs Hc H.
  induction ops as [|op ops IH]; intros bound fs Hc H.
  - destruct H as (d' & ? & ? & _). by exists d'.
  - cbn [run].
    apply (IH (match op with Create _ clock => Date_now clock | _ => bound end)).
    + destruct op; cbn [clock_never_back] in Hc; tauto.
    + apply step_in_order; [|done]. destruct op; cbn [clock_never_back] in *; tauto.
Qed.

Lemma ids_stay_in_creation_order_witness :
  ∃ d', collection
          (run sharp_ok "$" "USD"
             [Create socks tick; Create scarf tick; Delete (delete_of (Int 7));
              Create socks tock] fresh) = Some d' ∧
        StronglySorted Z.le (item_id <$> d').
Proof.
  apply (ids_stay_in_creation_order _ _ _ _ 0 fresh []).
  - reflexivity.
  - constructor.
  - constructor.
  - simpl. lia.
Defined.

(** ** [auth] *)

Lemma split_cons (sep : Ascii.ascii) (s : string) :
  ∃ token tokens, split sep s = token :: tokens.
Proof.
  induction s as [|c s (t & ts & IH)]; [by eexists _, _|].
  cbn [split]. destruct (Ascii.eqb c sep); [by eexists _, _|].
  rewrite IH. by eexists _, _.
Qed.

Lemma split_without_sep (sep : Ascii.ascii) (s : string) :
  occurs sep s = false → split sep s = [s].
Proof.
  induction s as [|c s IH]; [done|].
  cbn [occurs split]. intros [Hc Hs]%orb_false_iff. rewrite Hc, (IH Hs). done.
Qed.

Lemma split_at_sep (sep : Ascii.ascii) (a b : string) :
  occurs sep a = false → split sep (a +:+ String sep b) = a :: split sep b.
Proof.
  induction a as [|c a IH].
  - intros _. change ("" +:+ String sep b) with (String sep b).
    cbn [split]. by rewrite Ascii.eqb_refl.
  - cbn [occurs]. intros [Hc Ha]%orb_false_iff.
    change (String c a +:+ String sep b) with (String c (a +:+ String sep b)).
    cbn [split]. by rewrite Hc, (IH Ha).
Qed.

Lemma split_tokens (sep : Ascii.ascii) (s : string) :
  Forall (λ token, occurs sep token = false) (split sep s).
Proof.
  induction s as [|c s IH]; [by repeat constructor|].
  cbn [split]. destruct (Ascii.eqb c sep) eqn:Hc; [by constructor|].
  destruct (split sep s) as [|t ts]; [by repeat constructor; cbn; rewrite Hc|].
  apply Forall_cons in IH as [Ht Hts]. constructor; [|done]. cbn. by rewrite Hc, Ht.
Qed.

Lemma eqb_empty (s : string) : String.eqb s "" = false ↔ s ≠ "".
Proof. destruct (String.eqb_spec s ""); split; intros; congruence. Qed.

Lemma auth_401 (env : Env) (h : option string) (err : JsError) :
  auth env h = Some err → status (errorHandler err) = 401.
Proof.
  unfold auth. destruct (DUMBDO_PIN env) as [pin|]; [|done].
  destruct (String.eqb pin ""); [done|].
  destruct h as [h|]; [|by intros [= <-]].
  destruct (String.eqb h ""); [by intros [= <-]|].
  destruct (split SPACE h !! 1%nat) as [p|]; [|by intros [= <-]].
  destruct (String.eqb p pin); [done | by intros [= <-]].
Qed.

(** With a PIN configured, [auth] lets through every header whose second
    space-separated word is the PIN: whatever the first word is (any scheme,
    also none), and whatever follows the PIN after another space. *)
Theorem auth_accepts_the_pin_as_second_word (env : Env) (pin scheme : string) :
  DUMBDO_PIN env = Some pin →
  occurs SPACE pin = false →
  occurs SPACE scheme = false →
  auth env (Some (scheme +:+ String SPACE pin)) = None ∧
  ∀ rest, auth env (Some (scheme +:+ String SPACE (pin +:+ String SPACE rest))) = None.
Proof.
  intros Hpin Hp Hs. unfold auth. rewrite Hpin.
  destruct (String.eqb pin "") eqn:E; [done|].
  assert (Hne : ∀ t, String.eqb (scheme +:+ String SPACE t) "" = false).
  { intros t. apply eqb_empty. destruct scheme; discriminate. }
  split.
  - rewrite Hne, split_at_sep, split_without_sep by done. simpl.
    by rewrite String.eqb_refl.
  - intros rest. rewrite Hne, !split_at_sep by done. simpl.
    by rewrite String.eqb_refl.
Qed.

Lemma auth_accepts_the_pin_as_second_word_witness :
  auth (env_pin "1234") (Some ("Bearer" +:+ String SPACE "1234")) = None ∧
  ∀ rest, auth (env_pin "1234")
            (Some ("Bearer" +:+ String SPACE ("1234" +:+ String SPACE rest))) = None.
Proof. apply auth_accepts_the_pin_as_second_word; reflexivity. Defined.

(** With a PIN configured, a header without a space is refused with 401
    "Invalid PIN", also when the header is the PIN itself; and a missing or
    empty header is refused with 401 "No authorization header". *)
Theorem auth_refuses_a_bare_pin (env : Env) (pin header : string) :
  DUMBDO_PIN env = Some pin →
  pin ≠ "" →
  occurs SPACE header = false →
  header ≠ "" →
  errorHandler <$> auth env (Some header) = Some (fail 401 "Invalid PIN") ∧
  errorHandler <$> auth env None = Some (fail 401 "No authorization header") ∧
  errorHandler <$> auth env (Some "") = Some (fail 401 "No authorization header").
Proof.
  intros Hpin Hne Hh Hhe. unfold auth. rewrite Hpin.
  apply eqb_empty in Hne, Hhe. rewrite Hne, Hhe.
  by rewrite split_without_sep.
Qed.

Lemma auth_refuses_a_bare_pin_witness :
  errorHandler <$> auth (env_pin "1234") (Some "1234") = Some (fail 401 "Invalid PIN") ∧
  errorHandler <$> auth (env_pin "1234") None = Some (fail 401 "No authorization header") ∧
  errorHandler <$> auth (env_pin "1234") (Some "")
    = Some (fail 401 "No authorization header").
Proof. apply (auth_refuses_a_bare_pin (env_pin "1234") "1234" "1234"); done. Defined.

(** A configured PIN that contains a space can never be presented: [auth]
    refuses every request. *)
Theorem auth_with_a_space_in_the_pin_refuses_all (env : Env) (pin : string)
    (header : option string) :
  DUMBDO_PIN env = Some pin →
  occurs SPACE pin = true →
  ∃ err, auth env header = Some err ∧ status (errorHandler err) = 401.
Proof.
  intros Hpin Hsp.
  assert (∃ err, auth env header = Some err) as [err E]; [|eauto using auth_401].
  unfold auth. rewrite Hpin.
  destruct (String.eqb_spec pin "") as [->|_]; [done|].
  destruct header as [h|]; [|eauto].
  destruct (String.eqb h ""); [eauto|].
  pose proof (split_tokens SPACE h) as Ht.
  destruct (split SPACE h !! 1%nat) as [p|] eqn:Ep; [|eauto].
  destruct (String.eqb_spec p pin) as [->|_]; [|eauto].
  exfalso. rewrite Forall_forall in Ht.
  assert (occurs SPACE pin = false); [|congruence].
  apply Ht. apply list_elem_of_lookup. eauto.
Qed.

Lemma auth_with_a_space_in_the_pin_refuses_all_witness :
  ∃ err, auth (env_pin "12 34") (Some "Bearer 12 34") = Some err ∧
         status (errorHandler err) = 401.
Proof. apply (auth_with_a_space_in_the_pin_refuses_all _ "12 34"); reflexivity. Defined.

(** A request that [auth] refuses is answered 401 on each of the four
    protected routes and leaves the data directory as it was, whatever body
    and file it carries: neither [multer]'s part nor the handler runs. *)
Theorem refused_requests_change_nothing (env : Env) (sharp : Sharp) (r : HttpRequest)
    (clock : Clock) (fs : FS) :
  auth env (http_authorization r) ≠ None →
  (status (POST_image env sharp r fs).1 = 401 ∧ (POST_image env sharp r fs).2 = fs) ∧
  (status (POST_wishlist env sharp r clock fs).1 = 401 ∧
   (POST_wishlist env sharp r clock fs).2 = fs) ∧
  (status (PUT_wishlist env sharp r clock fs).1 = 401 ∧
   (PUT_wishlist env sharp r clock fs).2 = fs) ∧
  (status (DELETE_wishlist env r fs).1 = 401 ∧ (DELETE_wishlist env r fs).2 = fs).
Proof.
  intros Hn. unfold POST_image, POST_wishlist, PUT_wishlist, DELETE_wishlist, protected.
  destruct (auth env (http_authorization r)) as [err|] eqn:E; [|done].
  pose proof (auth_401 _ _ _ E). cbn [fst snd]. by repeat split.
Qed.

Lemma refused_requests_change_nothing_witness :
  let r := http_socks (Some "Bearer 0000") (Some ("image/png", photo)) in
  (status (POST_image (env_pin "1234") sharp_ok r one_item).1 = 401 ∧
   (POST_image (env_pin "1234") sharp_ok r one_item).2 = one_item) ∧
  (status (POST_wishlist (env_pin "1234") sharp_ok r tock one_item).1 = 401 ∧
   (POST_wishlist (env_pin "1234") sharp_ok r tock one_item).2 = one_item) ∧
  (status (PUT_wishlist (env_pin "1234") sharp_ok r tock one_item).1 = 401 ∧
   (PUT_wishlist (env_pin "1234") sharp_ok r tock one_item).2 = one_item) ∧
  (status (DELETE_wishlist (env_pin "1234") r one_item).1 = 401 ∧
   (DELETE_wishlist (env_pin "1234") r one_item).2 = one_item).
Proof. apply refused_requests_change_nothing. discriminate. Defined.

(** ** Routes, [multer], configuration *)

Lemma postWishlist_without_file (sharp sharp' : Sharp) (req : Request) (clock : Clock) (fs : FS) :
  req_file req = None →
  postWishlist sharp req clock fs = postWishlist sharp' req clock fs.
Proof. intros Hf. unfold postWishlist. by rewrite Hf. Qed.

Lemma putWishlist_without_file (sharp sharp' : Sharp) (req : Request) (clock : Clock) (fs : FS) :
  req_file req = None →
  putWishlist sharp req clock fs = putWishlist sharp' req clock fs.
Proof.
  intros Hf. unfold putWishlist, handle, bind. rewrite Hf.
  destruct (negb _); [done|]. destruct (readItems fs) as [[d|err] fs']; [|done].
  destruct (findIndex _ d) as [i|]; [|done]. by destruct (d !! i).
Qed.

(** With no PIN configured, or an empty one, the protected routes are open:
    each answers as its handler does, whatever the header. *)
Theorem no_pin_no_protection (env : Env) (sharp : Sharp) (r : HttpRequest)
    (clock : Clock) (fs : FS) :
  DUMBDO_PIN env = None ∨ DUMBDO_PIN env = Some "" →
  POST_image env sharp r fs = postImage sharp (upload_single r) fs ∧
  POST_wishlist env sharp r clock fs = postWishlist sharp (upload_single r) clock fs ∧
  PUT_wishlist env sharp r clock fs = putWishlist sharp (upload_single r) clock fs ∧
  DELETE_wishlist env r fs = deleteWishlist (no_upload r) fs.
Proof.
  intros Hpin. unfold POST_image, POST_wishlist, PUT_wishlist, DELETE_wishlist, protected.
  assert (auth env (http_authorization r) = None) as ->; [|done].
  unfold auth. by destruct Hpin as [-> | ->].
Qed.

Lemma no_pin_no_protection_witness :
  let env := env_pin "" in
  let r := http_socks None None in
  POST_image env sharp_ok r fresh = postImage sharp_ok (upload_single r) fresh ∧
  POST_wishlist env sharp_ok r tick fresh = postWishlist sharp_ok (upload_single r) tick fresh ∧
  PUT_wishlist env sharp_ok r tick fresh = putWishlist sharp_ok (upload_single r) tick fresh ∧
  DELETE_wishlist env r fresh = deleteWishlist (no_upload r) fresh.
Proof. apply no_pin_no_protection. by right. Defined.

(** A file part whose MIME type does not start with [image/] is dropped
    before the handlers: the upload route answers 400
    "No image file provided" and writes nothing, and a create or an update
    goes on as if no file had come, without [sharp] being asked. *)
Theorem non_image_files_are_dropped (env : Env) (sharp : Sharp) (r : HttpRequest)
    (clock : Clock) (fs : FS) (mimetype : string) (buffer : Buffer) :
  http_file r = Some (mimetype, buffer) →
  fileFilter mimetype = false →
  auth env (http_authorization r) = None →
  let bare := {| http_authorization := http_authorization r; http_id := http_id r;
                 http_body := http_body r; http_file := None |} in
  POST_image env sharp r fs = (fail 400 "No image file provided", fs) ∧
  (∀ sharp', POST_wishlist env sharp r clock fs = POST_wishlist env sharp' bare clock fs) ∧
  (∀ sharp', PUT_wishlist env sharp r clock fs = PUT_wishlist env sharp' bare clock fs).
Proof.
  intros Hf Hm Ha bare.
  assert (E : upload_single r = upload_single bare).
  { unfold upload_single, bare. cbn. by rewrite Hf, Hm. }
  assert (Hnone : req_file (upload_single bare) = None) by done.
  unfold POST_image, POST_wishlist, PUT_wishlist, protected. cbn [http_authorization bare].
  rewrite Ha, E. split; [|split].
  - unfold postImage, handle, ret. by rewrite Hnone.
  - intros sharp'. by apply postWishlist_without_file.
  - intros sharp'. by apply putWishlist_without_file.
Qed.

Lemma non_image_files_are_dropped_witness :
  let r := http_socks None (Some ("application/pdf", photo)) in
  let bare := {| http_authorization := http_authorization r; http_id := http_id r;
                 http_body := http_body r; http_file := None |} in
  POST_image (env_pin "") sharp_disk_full r one_item
    = (fail 400 "No image file provided", one_item) ∧
  (∀ sharp', POST_wishlist (env_pin "") sharp_disk_full r tock one_item
             = POST_wishlist (env_pin "") sharp' bare tock one_item) ∧
  (∀ sharp', PUT_wishlist (env_pin "") sharp_disk_full r tock one_item
             = PUT_wishlist (env_pin "") sharp' bare tock one_item).
Proof.
  exact (non_image_files_are_dropped (env_pin "") sharp_disk_full
           (http_socks None (Some ("application/pdf", photo))) tock one_item
           "application/pdf" photo eq_refl eq_refl eq_refl).
Defined.






(** ** More on the resize box *)

Lemma resizeDims_within (w h M : Z) :
  0 < w → 0 < h → 0 < M → M * Z.max w h ≤ 2 ^ 50 →
  0 ≤ (JsNumber.resizeDims w h M).1 ≤ Z.min w M ∧
  0 ≤ (JsNumber.resizeDims w h M).2 ≤ Z.min h M.
Proof.
  intros Hw Hh HM Hb.
  destruct (Z_lt_le_dec M w) as [Hbig|Hfw]; [|destruct (Z_lt_le_dec M h) as [Hbig|Hfh]].
  - destruct (resizeDims_scaled w h M Hw Hh HM Hb (or_introl Hbig))
      as (Gw & Gh & _ & _ & Gm).
    cbn zeta in *. revert Gw Gh Gm.
    generalize (JsNumber.resizeDims w h M).1 (JsNumber.resizeDims w h M).2.
    intros w' h' Gw Gh Gm. split; nia.
  - destruct (resizeDims_scaled w h M Hw Hh HM Hb (or_intror Hbig))
      as (Gw & Gh & _ & _ & Gm).
    cbn zeta in *. revert Gw Gh Gm.
    generalize (JsNumber.resizeDims w h M).1 (JsNumber.resizeDims w h M).2.
    intros w' h' Gw Gh Gm. split; nia.
  - unfold JsNumber.resizeDims.
    destruct (Z.ltb_spec M w); [lia|]. destruct (Z.ltb_spec M h); [lia|].
    cbn. lia.
Qed.

(** The box never exceeds the image nor the bound, on either side, and has no
    negative side. *)
Theorem resize_box_never_enlarges (w h M : Z) :
  0 < w → 0 < h → 0 < M → M * Z.max w h ≤ 2 ^ 50 →
  0 ≤ (JsNumber.resizeDims w h M).1 ≤ Z.min w M ∧
  0 ≤ (JsNumber.resizeDims w h M).2 ≤ Z.min h M.
Proof. apply resizeDims_within. Qed.

Lemma resize_box_never_enlarges_witness :
  0 ≤ (JsNumber.resizeDims 2000 100 1024).1 ≤ Z.min 2000 1024 ∧
  0 ≤ (JsNumber.resizeDims 2000 100 1024).2 ≤ Z.min 100 1024.
Proof. apply resize_box_never_enlarges; [lia | lia | lia | by vm_compute]. Defined.

(** Resizing is done once: the box computed for an image is its own box, so
    an image that was stored and is uploaded again is not scaled again. *)
Theorem resize_box_is_stable (w h M : Z) :
  0 < w → 0 < h → 0 < M → M * Z.max w h ≤ 2 ^ 50 →
  JsNumber.resizeDims (JsNumber.resizeDims w h M).1 (JsNumber.resizeDims w h M).2 M
  = JsNumber.resizeDims w h M.
Proof.
  intros Hw Hh HM Hb.
  destruct (resizeDims_within w h M Hw Hh HM Hb) as [G1 G2].
  revert G1 G2. destruct (JsNumber.resizeDims w h M) as [w' h']. cbn [fst snd].
  intros G1 G2. unfold JsNumber.resizeDims.
  destruct (Z.ltb_spec M w'); [lia|]. destruct (Z.ltb_spec M h'); [lia|]. done.
Qed.

Lemma resize_box_is_stable_witness :
  JsNumber.resizeDims (JsNumber.resizeDims 3001 1500 1024).1
                      (JsNumber.resizeDims 3001 1500 1024).2 1024
  = JsNumber.resizeDims 3001 1500 1024.
Proof. apply resize_box_is_stable; [lia | lia | lia | by vm_compute]. Defined.

(** When an image is scaled, a side of the box is 0 if it is less than
    [L / (2 * M)] of the larger side [L], and at least 1 if it is more: very
    thin images get a box without height (or width). *)
Theorem resize_box_of_thin_images (w h M : Z) :
  0 < w → 0 < h → 0 < M → M * Z.max w h ≤ 2 ^ 50 → M < w ∨ M < h →
  let L := Z.max w h in
  (2 * w * M < L → (JsNumber.resizeDims w h M).1 = 0) ∧
  (L < 2 * w * M → 1 ≤ (JsNumber.resizeDims w h M).1) ∧
  (2 * h * M < L → (JsNumber.resizeDims w h M).2 = 0) ∧
  (L < 2 * h * M → 1 ≤ (JsNumber.resizeDims w h M).2).
Proof.
  intros Hw Hh HM Hb Hbig.
  destruct (resizeDims_scaled w h M Hw Hh HM Hb Hbig) as (Gw & Gh & _ & _ & _).
  cbn zeta in *. revert Gw Gh.
  generalize (JsNumber.resizeDims w h M).1 (JsNumber.resizeDims w h M).2.
  intros w' h' Gw Gh.
  assert (HL : 0 < Z.max w h) by lia.
  repeat split; intros; nia.
Qed.

Lemma resize_box_of_thin_images_witness :
  (JsNumber.resizeDims 5000 2 1024).2 = 0.
Proof.
  apply (resize_box_of_thin_images 5000 2 1024); [lia | lia | lia | by vm_compute | lia | lia].
Defined.

(** ** The start-up banner *)

(** The "PIN Protection" line of the start-up banner tells what [auth] does:
    it says [enabled] exactly when a request without an [Authorization]
    header is refused, and [disabled] exactly when every request passes. *)
Theorem pin_protection_banner_is_accurate (env : Env) :
  (config_pinProtection env = "enabled" ↔ auth env None ≠ None) ∧
  (config_pinProtection env = "disabled" ↔ ∀ header, auth env header = None).
Proof.
  unfold config_pinProtection, auth.
  assert (Hne : @Some JsError {| err_status := Some 401;
                  err_message := "No authorization header"; err_code := None |} ≠ None)
    by discriminate.
  destruct (DUMBDO_PIN env) as [pin|]; [destruct (String.eqb pin "")|].
  - split; split; intros H; congruence.
  - split; split; intros H; try done. by specialize (H None).
  - split; split; intros H; congruence.
Qed.

Lemma pin_protection_banner_is_accurate_witness :
  auth (env_pin "1234") None ≠ None.
Proof.
  apply (proj1 (proj1 (pin_protection_banner_is_accurate (env_pin "1234")))).
  reflexivity.
Defined.
